(** * The reaper state machine of triton-cns (lib/reaper-stream.js)

    A shallow embedding of [ReaperFSM] and [ReaperStream].  The machine is a
    mooremachine FSM: entering a state runs its [state_*] function, which
    issues asynchronous commands and registers handlers; every handler of a
    state is torn down when the state is left.  Here an entry function maps
    the object's fields to new fields plus the list of commands it issued,
    and [step] runs the one handler that an incoming event reaches in the
    current state (an event with no live handler changes nothing).

    JavaScript numbers that can take fractional values ([sleep], [reapTime],
    timer durations) are rationals; integers (clock readings, [retries]) are
    in [Z].  Doubling and halving are exact on binary floating point for the
    magnitudes that occur, see [sleep_values_exact] below. *)

From Stdlib Require Import Ascii String QArith Qpower Qminmax Lqa.
From stdpp Require Import gmap strings list fin_maps.

Local Open Scope string_scope.
Local Open Scope Z_scope.
Local Open Scope list_scope.

(** ** JavaScript values and objects *)

Inductive jsval :=
  | JUndefined
  | JNull
  | JBool (b : bool)
  | JNumber (q : Q)
  | JNaN
  | JInfinity (negative : bool)
  | JString (s : string)
  | JObject.

(** A VM object as returned by VMAPI: property name to value. *)
Abbreviation VMObj := (gmap string jsval).

(** ToBoolean of a property read ([None] is a missing property). *)
Definition truthy (v : option jsval) : bool :=
  match v with
  | None | Some JUndefined | Some JNull | Some JNaN => false
  | Some (JBool b) => b
  | Some (JNumber q) => negb (Qeq_bool q 0)
  | Some (JString s) => negb (String.eqb s "")
  | Some (JInfinity _) | Some JObject => true
  end.

(** [v === s] for a string literal [s]. *)
Definition is_string (v : option jsval) (s : string) : bool :=
  match v with
  | Some (JString s') => String.eqb s' s
  | _ => false
  end.

Definition Qltb (x y : Q) : bool := negb (Qle_bool y x).

(** ** String primitives used by the source *)

(** [s.split(c)] for a one-character separator. *)
Fixpoint split (c : ascii) (s : string) : list string :=
  match s with
  | EmptyString => [EmptyString]
  | String a rest =>
      if Ascii.eqb a c then EmptyString :: split c rest
      else match split c rest with
           | p :: ps => String a p :: ps
           | [] => [String a EmptyString]
           end
  end.

Definition is_white (a : ascii) : bool :=
  let n := nat_of_ascii a in
  ((9 <=? n) && (n <=? 13))%nat || (n =? 32)%nat.

Definition digit_of (a : ascii) : option Z :=
  let n := nat_of_ascii a in
  if ((48 <=? n) && (n <=? 57))%nat then Some (Z.of_nat n - 48) else None.

Fixpoint skip_white (s : string) : string :=
  match s with
  | String a rest => if is_white a then skip_white rest else s
  | EmptyString => s
  end.

(** The longest prefix of decimal digits, as a number; [None] when the
    prefix is empty. *)
Fixpoint leading_digits (s : string) (acc : option Z) : option Z :=
  match s with
  | String a rest =>
      match digit_of a with
      | Some d => leading_digits rest (Some (10 * default 0 acc + d))
      | None => acc
      end
  | EmptyString => acc
  end.

(** [parseInt(s, 10)]; [None] is NaN.  Only ASCII white space is skipped
    and the result is not rounded to 53 bits: timestamps are far below. *)
Definition parseInt (s : string) : option Z :=
  match skip_white s with
  | String "-"%char rest => Z.opp <$> leading_digits rest None
  | String "+"%char rest => leading_digits rest None
  | s' => leading_digits s' None
  end.

(** [Math.round(t / 1000)] for an integer millisecond clock reading [t]:
    the nearest integer, halves rounded up. *)
Definition round_seconds (t : Z) : Z := (t + 500) / 1000.

(** ** The Redis record store, as far as the reaper uses it *)

Abbreviation Store := (gmap string (gmap string string)).

Definition hget (st : Store) (key field : string) : option string :=
  st !! key ≫= fun h => h !! field.

Definition hset (st : Store) (key field value : string) : Store :=
  <[key := <[field := value]> (default ∅ (st !! key))]> st.

Definition del (st : Store) (key : string) : Store := delete key st.

(** ** Fields of the FSM object *)

Module St.
Inductive read := reaped | last_recs.
(** The mooremachine state.  [checkReaped] issues two reads one after the
    other under one state handle; the argument says which reply is
    outstanding.  State [next] only passes control on and is never a state
    the machine rests in, see [state_next]. *)
Inductive t :=
  | idle | listVms | listError | checkLastVisited
  | checkReaped (pending : read)
  | fetchAndPush | sleep_full | sleep | checkError.
End St.

Inductive ReaperError :=
  | RedisTimedOut
  | VMAPITimedOut
  | RedisError (e : string)
  | VMAPIError (name message : string).

Record ReaperFSM := mkFSM {
  fsm_state : St.t;
  remaining : list string;
  vmuuid : option string;
  lastError : option ReaperError;
  retries : Z;
  onTimer : bool;
  minSleep : Q;
  sleep : Q;
  maxSleep : Q;
  reapTime : Q;
  listCursor : string
}.

Definition DEFAULT_REAP_TIME : Q := 3600.

(** The fields as the constructor leaves them, in state [idle]. *)
Definition init : ReaperFSM :=
  {| fsm_state := St.idle; remaining := []; vmuuid := None;
     lastError := None; retries := 3; onTimer := false;
     minSleep := 100; sleep := 100; maxSleep := 10000;
     reapTime := DEFAULT_REAP_TIME; listCursor := "0" |}.

Definition set_state (v : St.t) (s : ReaperFSM) : ReaperFSM :=
  mkFSM v (remaining s) (vmuuid s) (lastError s) (retries s) (onTimer s)
    (minSleep s) (sleep s) (maxSleep s) (reapTime s) (listCursor s).
Definition set_remaining (v : list string) (s : ReaperFSM) : ReaperFSM :=
  mkFSM (fsm_state s) v (vmuuid s) (lastError s) (retries s) (onTimer s)
    (minSleep s) (sleep s) (maxSleep s) (reapTime s) (listCursor s).
Definition set_vmuuid (v : option string) (s : ReaperFSM) : ReaperFSM :=
  mkFSM (fsm_state s) (remaining s) v (lastError s) (retries s) (onTimer s)
    (minSleep s) (sleep s) (maxSleep s) (reapTime s) (listCursor s).
Definition set_lastError (v : ReaperError) (s : ReaperFSM) : ReaperFSM :=
  mkFSM (fsm_state s) (remaining s) (vmuuid s) (Some v) (retries s) (onTimer s)
    (minSleep s) (sleep s) (maxSleep s) (reapTime s) (listCursor s).
Definition set_retries (v : Z) (s : ReaperFSM) : ReaperFSM :=
  mkFSM (fsm_state s) (remaining s) (vmuuid s) (lastError s) v (onTimer s)
    (minSleep s) (sleep s) (maxSleep s) (reapTime s) (listCursor s).
Definition set_onTimer (v : bool) (s : ReaperFSM) : ReaperFSM :=
  mkFSM (fsm_state s) (remaining s) (vmuuid s) (lastError s) (retries s) v
    (minSleep s) (sleep s) (maxSleep s) (reapTime s) (listCursor s).
Definition set_sleep (v : Q) (s : ReaperFSM) : ReaperFSM :=
  mkFSM (fsm_state s) (remaining s) (vmuuid s) (lastError s) (retries s)
    (onTimer s) (minSleep s) v (maxSleep s) (reapTime s) (listCursor s).
Definition set_reapTime (v : Q) (s : ReaperFSM) : ReaperFSM :=
  mkFSM (fsm_state s) (remaining s) (vmuuid s) (lastError s) (retries s)
    (onTimer s) (minSleep s) (sleep s) (maxSleep s) v (listCursor s).
Definition set_listCursor (v : string) (s : ReaperFSM) : ReaperFSM :=
  mkFSM (fsm_state s) (remaining s) (vmuuid s) (lastError s) (retries s)
    (onTimer s) (minSleep s) (sleep s) (maxSleep s) (reapTime s) v.

(** ** Commands and events *)

(** What the machine asks of its collaborators, in the order issued. *)
Inductive Action :=
  | S_timeout (ms : Q)
  | redis_scan (cursor : string)
  | redis_hget (key field : string)
  | redis_del (key : string)
  | redis_hset (key field value : string)
  | client_get (path : string)
  | stream_push (obj : VMObj).

(** What reaches the machine.  A reply event stands for the completion
    callback of the command outstanding in the current state.  Readings the
    callback takes synchronously from the outside travel with the event:
    [clock] is what [(new Date()).getTime()] returns, [accepted] is [false]
    exactly when [stream.push] returns [false]. *)
Inductive Event :=
  | start
  | wake
  | timer
  | scan_reply (r : string + string * list string)
  | hget_reply (r : string + option string) (clock : Z)
  | get_reply (r : string * string + VMObj) (accepted : bool).

Abbreviation Out := (ReaperFSM * list Action)%type.

(** Sequencing of two steps, keeping the commands in order. *)
Definition andThen (o : Out) (k : ReaperFSM → Out) : Out :=
  let '(s, a) := o in let '(s', a') := k s in (s', (a ++ a')%list).
Definition emit (a : Action) (s : ReaperFSM) : Out := (s, [a]).

(** ['vm:' + self.vmuuid]; string concatenation prints a missing value as
    [undefined]. *)
Definition uuid_text (s : ReaperFSM) : string := default "undefined" (vmuuid s).
Definition vmkey_of (uuid : string) : string := "vm:" +:+ uuid.
Definition vmkey (s : ReaperFSM) : string := vmkey_of (uuid_text s).

(** ** Entry functions of the states *)

Definition state_idle (s : ReaperFSM) : Out :=
  let s := set_listCursor "0" (set_state St.idle s) in
  (s, if onTimer s then [S_timeout (reapTime s * 1000)] else []).

Definition state_listVms (s : ReaperFSM) : Out :=
  (set_state St.listVms s, [S_timeout 10000; redis_scan (listCursor s)]).

Definition state_listError (s : ReaperFSM) : Out :=
  (set_listCursor "0" (set_state St.listError s), [S_timeout 1000]).

Definition state_checkLastVisited (s : ReaperFSM) : Out :=
  (set_state St.checkLastVisited s,
   [S_timeout 1000; redis_hget (vmkey s) "last_visit"]).

(** [remaining.shift()] takes the head of the worklist. *)
Definition state_next (s : ReaperFSM) : Out :=
  let s := set_retries 3 s in
  match remaining s with
  | uuid :: rest =>
      state_checkLastVisited (set_vmuuid (Some uuid) (set_remaining rest s))
  | [] => state_idle s
  end.

Definition state_checkReaped (s : ReaperFSM) : Out :=
  (set_state (St.checkReaped St.reaped) s,
   [S_timeout 1000; redis_hget (vmkey s) "reaped"]).

Definition state_fetchAndPush (s : ReaperFSM) : Out :=
  (set_state St.fetchAndPush s,
   [S_timeout 5000; client_get ("/vms/" +:+ uuid_text s)]).

Definition state_sleep_full (s : ReaperFSM) : Out :=
  (set_state St.sleep_full s, [S_timeout (sleep s)]).

Definition state_sleep (s : ReaperFSM) : Out :=
  (set_state St.sleep s, [S_timeout (sleep s)]).

Definition state_checkError (s : ReaperFSM) : Out :=
  let s := set_retries (retries s - 1) (set_state St.checkError s) in
  (s, [S_timeout (if 0 <? retries s then 1000 else 5000)%Q]).

(** ** Handlers *)

(** The test of [state_fetchAndPush] on the fetched object. *)
Definition terminal (obj : VMObj) : bool :=
  is_string (obj !! "state") "destroyed" || truthy (obj !! "destroyed") ||
  is_string (obj !! "state") "failed" || is_string (obj !! "state") "incomplete".

(** The loop of [state_listVms] over one page of keys. *)
Definition candidates (keys : list string) : list string :=
  flat_map (fun key =>
              match split ":" key with
              | [p0; p1] => if String.eqb p0 "vm" then [p1] else []
              | _ => []
              end) keys.

Section Machine.

(** [utils.cleanVM] lives in another file of the repository; it rewrites the
    fetched object in place before the reaper tags and pushes it. *)
Variable cleanVM : VMObj → VMObj.

(** The callback [ReaperFSM.prototype.fetch] hands to the REST client. *)
Definition fetch (r : string * string + VMObj) : string * string + VMObj :=
  match r with
  | inl err => inl err
  | inr obj => inr (<["origin" := JString "reaper"]> (cleanVM obj))
  end.

(** The timer callback of [state_sleep_full]. *)
Definition sleep_full_timeout (s : ReaperFSM) : Out :=
  let s := set_sleep (sleep s * 2)%Q s in
  let s := if Qltb (maxSleep s) (sleep s)
           then set_sleep (maxSleep s) s else s in
  state_next s.

(** The [wakeAsserted] listener of [state_sleep]. *)
Definition sleep_wake (s : ReaperFSM) : Out :=
  let s := set_sleep (sleep s / 2)%Q s in
  let s := if Qltb (sleep s) (minSleep s)
           then set_sleep (minSleep s) s else s in
  (s, []).

(** The timer callback of [state_checkError]: the branch taken at entry
    armed it, and [retries] has not changed since. *)
Definition checkError_timeout (s : ReaperFSM) : Out :=
  if 0 <? retries s then state_checkLastVisited s else state_next s.

(** The scan callback of [state_listVms]. *)
Definition listVms_callback (r : string + string * list string)
    (s : ReaperFSM) : Out :=
  match r with
  | inl err => state_listError (set_lastError (RedisError err) s)
  | inr (cursor, keys) =>
      let s := set_listCursor cursor s in
      let s := set_remaining (remaining s ++ candidates keys)%list s in
      if String.eqb (listCursor s) "0" then state_next s
      else state_listVms s
  end.

(** The [last_visit] callback of [state_checkLastVisited].  A [last_visit]
    that does not parse makes the comparison false. *)
Definition checkLastVisited_callback (r : string + option string) (clock : Z)
    (s : ReaperFSM) : Out :=
  match r with
  | inl err => state_checkError (set_lastError (RedisError err) s)
  | inr None => state_next s
  | inr (Some val) =>
      let now := round_seconds clock in
      match parseInt val with
      | Some lastVisited =>
          if Qltb (reapTime s) (inject_Z (now - lastVisited))
          then state_checkReaped s else state_next s
      | None => state_next s
      end
  end.

(** The [reaped] callback of [state_checkReaped]: a value found issues the
    second read, still in state [checkReaped]. *)
Definition checkReaped_callback (r : string + option string)
    (s : ReaperFSM) : Out :=
  match r with
  | inl err => state_checkError (set_lastError (RedisError err) s)
  | inr (Some _) =>
      (set_state (St.checkReaped St.last_recs) s,
       [redis_hget (vmkey s) "last_recs"])
  | inr None => state_fetchAndPush s
  end.

(** The [last_recs] callback nested in it:
    [if (err2 || val2 === null || val2 === '{}')]. *)
Definition last_recs_callback (r : string + option string)
    (s : ReaperFSM) : Out :=
  let empty := match r with
               | inl _ | inr None => true
               | inr (Some val2) => String.eqb val2 "{}"
               end in
  if empty then andThen (emit (redis_del (vmkey s)) s) state_next
  else state_fetchAndPush s.

(** The callback of [state_fetchAndPush]. *)
Definition fetchAndPush_callback (r : string * string + VMObj)
    (accepted : bool) (s : ReaperFSM) : Out :=
  match fetch r with
  | inl (name, message) =>
      state_checkError (set_lastError (VMAPIError name message) s)
  | inr obj =>
      andThen (emit (stream_push obj) s) (fun s =>
        if negb accepted then state_sleep_full s
        else andThen
               (if terminal obj
                then emit (redis_hset (vmkey s) "reaped" "yes") s
                else (s, []))
               state_sleep)
  end.

(** Dispatch of an event to the handler registered in the current state. *)
Definition on_timer (s : ReaperFSM) : Out :=
  match fsm_state s with
  | St.idle => if onTimer s then state_listVms s else (s, [])
  | St.listVms => state_listError (set_lastError RedisTimedOut s)
  | St.listError => state_listVms s
  | St.checkLastVisited | St.checkReaped _ =>
      state_checkError (set_lastError RedisTimedOut s)
  | St.fetchAndPush => state_checkError (set_lastError VMAPITimedOut s)
  | St.sleep_full => sleep_full_timeout s
  | St.sleep => state_next s
  | St.checkError => checkError_timeout s
  end.

Definition on_wake (s : ReaperFSM) : Out :=
  match fsm_state s with
  | St.sleep_full => state_next s
  | St.sleep => sleep_wake s
  | _ => (s, [])
  end.

Definition on_scan_reply (r : string + string * list string)
    (s : ReaperFSM) : Out :=
  match fsm_state s with
  | St.listVms => listVms_callback r s
  | _ => (s, [])
  end.

Definition on_hget_reply (r : string + option string) (clock : Z)
    (s : ReaperFSM) : Out :=
  match fsm_state s with
  | St.checkLastVisited => checkLastVisited_callback r clock s
  | St.checkReaped St.reaped => checkReaped_callback r s
  | St.checkReaped St.last_recs => last_recs_callback r s
  | _ => (s, [])
  end.

Definition on_get_reply (r : string * string + VMObj) (accepted : bool)
    (s : ReaperFSM) : Out :=
  match fsm_state s with
  | St.fetchAndPush => fetchAndPush_callback r accepted s
  | _ => (s, [])
  end.

(** [ReaperFSM.prototype.start]: only [idle] listens to [startAsserted]. *)
Definition on_start (s : ReaperFSM) : Out :=
  let s := set_onTimer true s in
  match fsm_state s with
  | St.idle => state_listVms s
  | _ => (s, [])
  end.

Definition step (s : ReaperFSM) (e : Event) : Out :=
  match e with
  | start => on_start s
  | wake => on_wake s
  | timer => on_timer s
  | scan_reply r => on_scan_reply r s
  | hget_reply r clock => on_hget_reply r clock s
  | get_reply r accepted => on_get_reply r accepted s
  end.

(** Delivery of a sequence of events, collecting the commands. *)
Fixpoint run (s : ReaperFSM) (es : list Event) : Out :=
  match es with
  | [] => (s, [])
  | e :: es' => andThen (step s e) (fun s' => run s' es')
  end.

End Machine.

(** [ReaperStream.prototype._read] calls [start] and then [wake]. *)
Definition _read : list Event := [start; wake].

(** [ReaperStream.prototype.setReapTime]; [None] when an assertion throws.
    [assert.number] passes numbers only, [assert.ok] tests the range. *)
Definition setReapTime (v : jsval) (s : ReaperFSM) : option ReaperFSM :=
  match v with
  | JNumber q =>
      if Qltb 0 q && Qltb q (24 * 3600) then Some (set_reapTime q s) else None
  | _ => None
  end.

(** ** Effect of the commands on the store, and what a trace contains *)

Definition exec (st : Store) (a : Action) : Store :=
  match a with
  | redis_del key => del st key
  | redis_hset key field value => hset st key field value
  | _ => st
  end.

Definition exec_all (st : Store) (acts : list Action) : Store :=
  foldl exec st acts.

Definition is_fetch (a : Action) : bool :=
  match a with client_get _ => true | _ => false end.
Definition is_push (a : Action) : bool :=
  match a with stream_push _ => true | _ => false end.
Definition is_mutation (a : Action) : bool :=
  match a with redis_del _ | redis_hset _ _ _ => true | _ => false end.

(** ** Vocabulary of the properties *)

(** The capped doubling of [state_sleep_full] and the floored halving of
    [state_sleep], as written in the source. *)
Definition backoff (s : ReaperFSM) : Q :=
  if Qltb (maxSleep s) (sleep s * 2) then maxSleep s else (sleep s * 2)%Q.
Definition anneal (s : ReaperFSM) : Q :=
  if Qltb (sleep s / 2) (minSleep s) then minSleep s else (sleep s / 2)%Q.

(** The two handlers that assign [sleep]: the timer of [sleep_full] and the
    wake listener of [sleep]. *)
Definition is_full_expiry (s : ReaperFSM) (e : Event) : bool :=
  match fsm_state s, e with St.sleep_full, timer => true | _, _ => false end.
Definition is_sleep_wake (s : ReaperFSM) (e : Event) : bool :=
  match fsm_state s, e with St.sleep, wake => true | _, _ => false end.

Definition throttle_after (s : ReaperFSM) (e : Event) : Q :=
  if is_full_expiry s e then backoff s
  else if is_sleep_wake s e then anneal s
  else sleep s.

(** Number of [sleep_full] timer expiries, and of wake signals that arrive in
    state [sleep], while the events [es] are delivered from [s]. *)
Fixpoint full_expiries cleanVM (s : ReaperFSM) (es : list Event) : nat :=
  match es with
  | [] => 0
  | e :: es' =>
      ((if is_full_expiry s e then 1 else 0) +
       full_expiries cleanVM (step cleanVM s e).1 es')%nat
  end.

Fixpoint sleep_wakes cleanVM (s : ReaperFSM) (es : list Event) : nat :=
  match es with
  | [] => 0
  | e :: es' =>
      ((if is_sleep_wake s e then 1 else 0) +
       sleep_wakes cleanVM (step cleanVM s e).1 es')%nat
  end.

Definition pow2 (n : nat) : Q := (2 ^ Z.of_nat n)%Q.

Definition throttle_ok (s : ReaperFSM) : Prop :=
  (0 <= minSleep s ∧ minSleep s <= sleep s ∧ sleep s <= maxSleep s)%Q.

(** One visit of the machine to the head of the worklist: [next] is entered
    from [s], then the events [es] arrive. *)
Definition observe cleanVM (s : ReaperFSM) (es : list Event) : Out :=
  andThen (state_next s) (fun s1 => run cleanVM s1 es).

Definition stale (s : ReaperFSM) (val : string) (clock : Z) : Prop :=
  ∃ lastVisited, parseInt val = Some lastVisited ∧
    (reapTime s < inject_Z (round_seconds clock - lastVisited))%Q.

Definition fresh (s : ReaperFSM) (val : string) (clock : Z) : Prop :=
  ∃ lastVisited, parseInt val = Some lastVisited ∧
    (inject_Z (round_seconds clock - lastVisited) <= reapTime s)%Q.

(** The object the fetch callback receives. *)
Definition fetched cleanVM (obj : VMObj) : VMObj :=
  <["origin" := JString "reaper"]> (cleanVM obj).

Definition sample_store_fresh : Store :=
  {[ "vm:A" := {[ "last_visit" := "1599999000" ]} ]}.

(** The double quote character, for JSON text. *)
Definition dq : string := String (ascii_of_nat 34) "".
Definition sample_last_recs : string := "{" +:+ dq +:+ "x" +:+ dq +:+ ":1}".

Definition sample_store_reaped : Store :=
  {[ "vm:A" := {[ "last_visit" := "1500000000"; "reaped" := "yes";
                  "last_recs" := sample_last_recs ]} ]}.

Definition leaves_sleep_full (e : Event) : bool :=
  match e with wake | timer => true | _ => false end.

Definition sample_store_stale : Store :=
  {[ "vm:A" := {[ "last_visit" := "1500000000" ]} ]}.
Definition sample_destroyed : VMObj := {[ "state" := JString "destroyed" ]}.
Definition sample_running : VMObj := {[ "state" := JString "running" ]}.

(** Two visits to [A], a stale unmarked record; [obj] is what VMAPI returns
    and [accepted] is the answer of the sink to the first push. *)
Definition two_visits (obj : VMObj) (accepted : bool) : list Event :=
  [hget_reply (inr (hget sample_store_stale "vm:A" "last_visit")) 1600000000000;
   hget_reply (inr (hget sample_store_stale "vm:A" "reaped")) 1600000000000;
   get_reply (inr obj) accepted;
   timer;
   hget_reply (inr (hget sample_store_stale "vm:A" "last_visit")) 1600000001000;
   hget_reply (inr (hget sample_store_stale "vm:A" "reaped")) 1600000001000;
   get_reply (inr obj) true].

(** A cycle whose scan lists [vm:A] twice because a failed scan started
    over, and one where SCAN itself returns the key on two pages. *)
Definition twice_listed (obj : VMObj) (accepted : bool) : list Event :=
  [start;
   scan_reply (inr ("17", ["vm:A"])); scan_reply (inl "ECONNRESET"); timer;
   scan_reply (inr ("0", ["vm:A"]))] ++ two_visits obj accepted.

Definition twice_paged (obj : VMObj) (accepted : bool) : list Event :=
  [start; scan_reply (inr ("17", ["vm:A"])); scan_reply (inr ("0", ["vm:A"]))]
  ++ two_visits obj accepted.


Definition last_recs_empty (lr : option string) : bool :=
  match lr with None => true | Some v => String.eqb v "{}" end.

(** The handlers that give up on the operation in flight: the timers of the
    three checking states and the error branches of the [last_visit] read,
    of the [reaped] read and of the fetch.  (The [last_recs] callback has no
    error branch of this kind, see [step_last_recs_error].) *)
Definition check_failure (s : ReaperFSM) (e : Event) : option ReaperError :=
  match fsm_state s, e with
  | St.checkLastVisited, timer | St.checkReaped _, timer => Some RedisTimedOut
  | St.fetchAndPush, timer => Some VMAPITimedOut
  | St.checkLastVisited, hget_reply (inl err) _
  | St.checkReaped St.reaped, hget_reply (inl err) _ => Some (RedisError err)
  | St.fetchAndPush, get_reply (inl (name, message)) _ =>
      Some (VMAPIError name message)
  | _, _ => None
  end.

(** Ways for one attempt at a resource to fail, and the events of such an
    attempt from [checkLastVisited] on; [val] is a stale [last_visit]. *)
Inductive Failure :=
  | last_visit_timeout
  | last_visit_error (err : string)
  | reaped_timeout
  | reaped_error (err : string)
  | fetch_timeout
  | fetch_error (name message : string).

Definition attempt (val : string) (clock : Z) (f : Failure) : list Event :=
  match f with
  | last_visit_timeout => [timer]
  | last_visit_error err => [hget_reply (inl err) clock]
  | reaped_timeout => [hget_reply (inr (Some val)) clock; timer]
  | reaped_error err =>
      [hget_reply (inr (Some val)) clock; hget_reply (inl err) clock]
  | fetch_timeout =>
      [hget_reply (inr (Some val)) clock; hget_reply (inr None) clock; timer]
  | fetch_error name message =>
      [hget_reply (inr (Some val)) clock; hget_reply (inr None) clock;
       get_reply (inl (name, message)) true]
  end.

Definition failure_error (f : Failure) : ReaperError :=
  match f with
  | last_visit_timeout | reaped_timeout => RedisTimedOut
  | last_visit_error err | reaped_error err => RedisError err
  | fetch_timeout => VMAPITimedOut
  | fetch_error name message => VMAPIError name message
  end.

Definition page_reply (p : string * list string) : Event := scan_reply (inr p).

(** The ids a sequence of scan pages puts on the worklist. *)
Definition ids (pages : list (string * list string)) : list string :=
  flat_map (fun p => candidates p.2) pages.

(** The two ways a scan fails: its timer, or an error reply. *)
Definition scan_failure (e : Event) : option ReaperError :=
  match e with
  | timer => Some RedisTimedOut
  | scan_reply (inl err) => Some (RedisError err)
  | _ => None
  end.

(** The states the machine rests in after each event of a run. *)
Fixpoint states_visited cleanVM (s : ReaperFSM) (es : list Event) : list St.t :=
  match es with
  | [] => []
  | e :: es' =>
      let s' := (step cleanVM s e).1 in
      fsm_state s' :: states_visited cleanVM s' es'
  end.

Definition is_idle (st : St.t) : bool :=
  match st with St.idle => true | _ => false end.

(** The ids an event adds to the worklist: those of a scan page. *)
Definition scanned (s : ReaperFSM) (e : Event) : list string :=
  match fsm_state s, e with
  | St.listVms, scan_reply (inr (_, keys)) => candidates keys
  | _, _ => []
  end.

(** From [s] to [s'] the resource in hand is the same and the worklist is
    [worklist], or the head of [worklist] has been taken in hand. *)
Definition takes_from (s : ReaperFSM) (worklist : list string)
    (s' : ReaperFSM) : Prop :=
  (vmuuid s' = vmuuid s ∧ remaining s' = worklist) ∨
  (∃ u, worklist = u :: remaining s' ∧ vmuuid s' = Some u).

(** No state of the run is [idle]: the run stays inside one reap cycle. *)
Definition never_idle cleanVM (s : ReaperFSM) (es : list Event) : bool :=
  forallb (fun st => negb (is_idle st)) (states_visited cleanVM s es).

(** In the run [es] from the constructor's state the machine is never idle
    and fetches [A] twice; [writes] are its writes and deletes. *)
Definition handles_twice (es : list Event) (writes : list Action) : Prop :=
  never_idle id init es = true ∧
  List.filter is_fetch (run id init es).2 =
    [client_get "/vms/A"; client_get "/vms/A"] ∧
  List.filter is_mutation (run id init es).2 = writes.

(** The states in which the machine works through the worklist. *)
Definition walking (st : St.t) : bool :=
  match st with St.idle | St.listVms | St.listError => false | _ => true end.

(** From [s] to [s'] the machine has become idle, or is still walking and
    has kept its resource or taken the head of the worklist. *)
Definition walks_on (s s' : ReaperFSM) : Prop :=
  fsm_state s' = St.idle ∨
  (walking (fsm_state s') = true ∧
   ((vmuuid s' = vmuuid s ∧ remaining s' = remaining s) ∨
    (∃ u, remaining s = u :: remaining s' ∧ vmuuid s' = Some u))).


(** Every value [sleep] takes from the constructor's state on. *)
Definition sleep_values : list Q :=
  [100; 200; 400; 800; 1600; 3200; 6400; 10000;
   5000; 2500; 1250; 625; 625 # 2; 625 # 4]%Q.

Definition sleep_listed (s : ReaperFSM) : Prop :=
  minSleep s = 100%Q ∧ maxSleep s = 10000%Q ∧
  ∃ v, In v sleep_values ∧ (sleep s == v)%Q.

(** ** Vocabulary of the further properties *)

(** Whether the character [c] occurs in [s]. *)
Fixpoint has_char (c : ascii) (s : string) : bool :=
  match s with
  | EmptyString => false
  | String a rest => Ascii.eqb a c || has_char c rest
  end.

(** [parts.join(c)] for a one-character separator. *)
Fixpoint join (c : ascii) (parts : list string) : string :=
  match parts with
  | [] => ""
  | p :: ps =>
      match ps with
      | [] => p
      | _ => p +:+ String c (join c ps)
      end
  end.

(** Whether the current state has a live handler for the event. *)
Definition handled (s : ReaperFSM) (e : Event) : bool :=
  match fsm_state s, e with
  | St.idle, start => true
  | St.idle, timer => onTimer s
  | St.listVms, (timer | scan_reply _) => true
  | St.listError, timer => true
  | (St.checkLastVisited | St.checkReaped _), (timer | hget_reply _ _) => true
  | St.fetchAndPush, (timer | get_reply _ _) => true
  | (St.sleep_full | St.sleep), (timer | wake) => true
  | St.checkError, timer => true
  | _, _ => false
  end.

(** What the commands of the machine may look like: the three fields it
    reads, the one field and value it writes, pushes that carry the tag. *)
Definition well_formed_action (a : Action) : Prop :=
  match a with
  | redis_hget _ field =>
      field = "last_visit" ∨ field = "reaped" ∨ field = "last_recs"
  | redis_hset _ field value => field = "reaped" ∧ value = "yes"
  | stream_push obj => obj !! "origin" = Some (JString "reaper")
  | _ => True
  end.

(** The retry counter is within its budget, and not spent unless the
    machine is in [checkError]. *)
Definition retries_ok (s : ReaperFSM) : Prop :=
  0 <= retries s <= 3 ∧ (fsm_state s ≠ St.checkError → 1 <= retries s).



(** The ids that scan pages put on the worklist during a run. *)
Fixpoint listed cleanVM (s : ReaperFSM) (es : list Event) : list string :=
  match es with
  | [] => []
  | e :: es' => scanned s e ++ listed cleanVM (step cleanVM s e).1 es'
  end.

Definition fetching (s : ReaperFSM) : Z :=
  match fsm_state s with St.fetchAndPush => 1 | _ => 0 end.

Definition count (f : Action → bool) (acts : list Action) : Z :=
  Z.of_nat (length (List.filter f acts)).

(** Between cycles the worklist is empty, and outside a scan in progress
    the cursor is at the start of the key space. *)
Definition scan_ok (s : ReaperFSM) : Prop :=
  (fsm_state s = St.idle → remaining s = []) ∧
  (fsm_state s ≠ St.listVms → listCursor s = "0").

(** The resource a command is about: the key of a Redis command, the path
    of a VMAPI request. *)
Definition about (u : string) (a : Action) : Prop :=
  match a with
  | redis_hget key _ | redis_del key | redis_hset key _ _ => key = vmkey_of u
  | client_get path => path = "/vms/" +:+ u
  | _ => False
  end.

Definition addressed (a : Action) : bool :=
  match a with
  | redis_hget _ _ | redis_del _ | redis_hset _ _ _ | client_get _ => true
  | _ => false
  end.

(** The worklist and the resource in hand all come from [known]. *)
Definition holds (known : list string) (s : ReaperFSM) : Prop :=
  incl (remaining s) known ∧
  (walking (fsm_state s) = true → ∃ u, vmuuid s = Some u ∧ In u known).

(** Outside [idle] the machine has been started. *)
Definition started (s : ReaperFSM) : Prop :=
  fsm_state s ≠ St.idle → onTimer s = true.

(** In the two error states an error has been recorded for the log. *)
Definition error_recorded (s : ReaperFSM) : Prop :=
  fsm_state s = St.listError ∨ fsm_state s = St.checkError →
  lastError s ≠ None.

(** The events still needed, at most, before the resource in hand is left:
    an attempt takes up to four replies and one timer, and there are
    [retries] attempts. *)
Definition attempt_cost (s : ReaperFSM) : Z :=
  match fsm_state s with
  | St.checkLastVisited => 5 * retries s
  | St.checkReaped St.reaped => 5 * retries s - 1
  | St.checkReaped St.last_recs => 5 * retries s - 2
  | St.fetchAndPush => 5 * retries s - 3
  | St.sleep_full | St.sleep => 1
  | St.checkError => 5 * retries s + 1
  | _ => 0
  end.

(** The same for the whole worklist. *)
Definition walk_cost (s : ReaperFSM) : Z :=
  attempt_cost s + 15 * Z.of_nat (length (remaining s)).

(** The events that move the walk on: those with a live handler in a
    walking state, apart from a wake-up in [sleep], which only adjusts the
    throttle. *)
Definition advances (s : ReaperFSM) (e : Event) : bool :=
  walking (fsm_state s) && handled s e &&
  negb (match fsm_state s, e with St.sleep, wake => true | _, _ => false end).

Fixpoint advancing cleanVM (s : ReaperFSM) (es : list Event) : Z :=
  match es with
  | [] => 0
  | e :: es' =>
      (if advances s e then 1 else 0) +
      advancing cleanVM (step cleanVM s e).1 es'
  end.

(** What reaches the machine in the life of a [ReaperStream]: an event, or
    a call of [setReapTime], whose assertions may throw and then leave the
    machine as it is. *)
Inductive Call :=
  | deliver (e : Event)
  | call_setReapTime (v : jsval).

Definition call cleanVM (s : ReaperFSM) (c : Call) : Out :=
  match c with
  | deliver e => step cleanVM s e
  | call_setReapTime v =>
      match setReapTime v s with
      | Some s' => (s', [])
      | None => (s, [])
      end
  end.

Fixpoint session cleanVM (s : ReaperFSM) (cs : list Call) : Out :=
  match cs with
  | [] => (s, [])
  | c :: cs' => andThen (call cleanVM s c) (fun s' => session cleanVM s' cs')
  end.

(** A timer of positive duration below one day. *)
Definition timer_in_range (a : Action) : Prop :=
  match a with
  | S_timeout ms => (0 < ms ∧ ms < 86400000)%Q
  | _ => True
  end.

Definition settled (s : ReaperFSM) : Prop :=
  sleep_listed s ∧ (0 < reapTime s ∧ reapTime s < 86400)%Q.




(** The scan commands that follow a sequence of pages. *)
Definition page_scans (pages : list (string * list string)) : list Action :=
  flat_map (fun p => [S_timeout 10000; redis_scan p.1]) pages.


(** Events that end a sleep: the timer and the wake-up. *)
Definition is_pause_end (e : Event) : bool :=
  match e with timer | wake => true | _ => false end.

Definition pausing (s : ReaperFSM) : Z :=
  match fsm_state s with St.sleep_full | St.sleep => 0 | _ => 1 end.

Definition pause_ends (es : list Event) : Z :=
  Z.of_nat (length (List.filter is_pause_end es)).

Definition is_timeout (a : Action) : bool :=
  match a with S_timeout _ => true | _ => false end.

(** The two handled events that stay under the state handle and its timer:
    the [reaped] reply that issues the [last_recs] read, and a wake-up in
    [sleep]. *)
Definition stays (s : ReaperFSM) (e : Event) : bool :=
  match fsm_state s, e with
  | St.checkReaped St.reaped, hget_reply (inr (Some _)) _ => true
  | St.sleep, wake => true
  | _, _ => false
  end.

(** * Properties *)

Ltac enter :=
  unfold state_next, state_idle, state_listVms, state_listError,
    state_checkLastVisited, state_checkReaped, state_fetchAndPush,
    state_sleep_full, state_sleep, state_checkError, andThen, emit in *.

Ltac handlers :=
  unfold step, on_start, on_wake, on_timer, on_scan_reply, on_hget_reply,
    on_get_reply, sleep_full_timeout, sleep_wake, checkError_timeout,
    listVms_callback, checkLastVisited_callback, checkReaped_callback,
    last_recs_callback, fetchAndPush_callback in *.

Ltac pick_listed :=
  repeat (first [left; reflexivity | right]).

(** ** Comparisons on rationals *)

Lemma Qltb_lt (x y : Q) : Qltb x y = true ↔ (x < y)%Q.
Proof.
  unfold Qltb. rewrite negb_true_iff, <- not_true_iff_false, Qle_bool_iff.
  split; [apply Qnot_le_lt | apply Qlt_not_le].
Qed.

Lemma Qltb_ge (x y : Q) : Qltb x y = false ↔ (y <= x)%Q.
Proof.
  unfold Qltb. rewrite negb_false_iff. apply Qle_bool_iff.
Qed.

Lemma backoff_min (s : ReaperFSM) :
  (backoff s == Qmin (sleep s * 2) (maxSleep s))%Q.
Proof.
  unfold backoff. destruct (Qltb _ _) eqn:E.
  - apply Qltb_lt in E. symmetry. apply Q.min_r. lra.
  - apply Qltb_ge in E. symmetry. apply Q.min_l. lra.
Qed.

Lemma anneal_max (s : ReaperFSM) :
  (anneal s == Qmax (sleep s / 2) (minSleep s))%Q.
Proof.
  unfold anneal. destruct (Qltb _ _) eqn:E.
  - apply Qltb_lt in E. symmetry. apply Q.max_r. lra.
  - apply Qltb_ge in E. symmetry. apply Q.max_l. lra.
Qed.

(** ** Which steps touch the throttle *)

Lemma step_throttle cleanVM (s : ReaperFSM) (e : Event) :
  minSleep (step cleanVM s e).1 = minSleep s ∧
  maxSleep (step cleanVM s e).1 = maxSleep s ∧
  sleep (step cleanVM s e).1 = throttle_after s e.
Proof.
  unfold throttle_after, is_full_expiry, is_sleep_wake, backoff, anneal.
  handlers.
  destruct e; destruct (fsm_state s) eqn:St; enter; simpl;
    repeat (case_match; simplify_eq/=); auto.
Qed.

Lemma pow2_S (n : nat) : (pow2 (S n) == 2 * pow2 n)%Q.
Proof.
  unfold pow2. rewrite Nat2Z.inj_succ, <- Z.add_1_l.
  rewrite Qpower_plus by discriminate. reflexivity.
Qed.

Lemma pow2_ge_1 (n : nat) : (1 <= pow2 n)%Q.
Proof.
  induction n as [|n IH]; [discriminate|]. rewrite pow2_S. lra.
Qed.

Lemma run_cons_fst cleanVM (s : ReaperFSM) (e : Event) (es : list Event) :
  (run cleanVM s (e :: es)).1 = (run cleanVM (step cleanVM s e).1 es).1.
Proof.
  simpl. unfold andThen. destruct (step cleanVM s e) as [s1 a1]. simpl.
  destruct (run cleanVM s1 es); reflexivity.
Qed.

Lemma run_cons_snd cleanVM (s : ReaperFSM) (e : Event) (es : list Event) :
  (run cleanVM s (e :: es)).2 =
  ((step cleanVM s e).2 ++ (run cleanVM (step cleanVM s e).1 es).2)%list.
Proof.
  simpl. unfold andThen. destruct (step cleanVM s e) as [s1 a1]. simpl.
  destruct (run cleanVM s1 es); reflexivity.
Qed.

Lemma Qhalf (x : Q) : (x / 2 == x * (1 # 2))%Q.
Proof. field. Qed.

Lemma step_throttle_ok cleanVM (s : ReaperFSM) (e : Event) :
  throttle_ok s → throttle_ok (step cleanVM s e).1.
Proof.
  unfold throttle_ok. intros (H0 & Hlo & Hhi).
  destruct (step_throttle cleanVM s e) as (-> & -> & ->).
  unfold throttle_after, backoff, anneal.
  destruct (is_full_expiry s e); [|destruct (is_sleep_wake s e)].
  - destruct (Qltb _ _) eqn:E; [repeat split; lra|].
    apply Qltb_ge in E. repeat split; lra.
  - destruct (Qltb _ _) eqn:E; [repeat split; lra|].
    apply Qltb_ge in E. rewrite Qhalf in *. repeat split; lra.
  - repeat split; assumption.
Qed.

Lemma run_throttle_ok cleanVM (es : list Event) (s : ReaperFSM) :
  throttle_ok s →
  throttle_ok (run cleanVM s es).1 ∧
  minSleep (run cleanVM s es).1 = minSleep s ∧
  maxSleep (run cleanVM s es).1 = maxSleep s.
Proof.
  revert s. induction es as [|e es IH]; intros s Hok; [done|].
  rewrite run_cons_fst.
  destruct (IH _ (step_throttle_ok cleanVM s e Hok)) as (? & -> & ->).
  destruct (step_throttle cleanVM s e) as (-> & -> & _). done.
Qed.

Lemma double_then_cap (x M p : Q) :
  (0 <= M)%Q → (1 <= p)%Q →
  (Qmin (Qmin (x * 2) M * p) M == Qmin (x * (2 * p)) M)%Q.
Proof.
  intros HM Hp. destruct (Qlt_le_dec M (x * 2)) as [Hgt|Hle].
  - rewrite (Q.min_r (x * 2) M) by lra.
    rewrite (Q.min_r (M * p) M) by nra.
    rewrite Q.min_r; [reflexivity|]. nra.
  - rewrite (Q.min_l (x * 2) M) by lra.
    assert (E : (x * (2 * p) == x * 2 * p)%Q) by ring.
    rewrite E. reflexivity.
Qed.

Lemma halve_then_floor (x m p : Q) :
  (0 <= m)%Q → (1 <= p)%Q →
  (Qmax (Qmax (x / 2) m / p) m == Qmax (x / (2 * p)) m)%Q.
Proof.
  intros Hm Hp.
  assert (Hip : (0 < / p ∧ / p <= 1)%Q).
  { split; [apply Qinv_lt_0_compat; lra|].
    apply Qle_shift_inv_r; lra. }
  assert (Hx : (x / (2 * p) == x / 2 * / p)%Q) by (field; lra).
  destruct (Qlt_le_dec (x / 2) m) as [Hlt|Hge].
  - rewrite (Q.max_r (x / 2) m) by lra.
    rewrite (Q.max_r (m / p) m) by (unfold Qdiv; nra).
    rewrite Q.max_r; [reflexivity|]. rewrite Hx. nra.
  - rewrite (Q.max_l (x / 2) m) by lra.
    rewrite Hx. reflexivity.
Qed.

Lemma run_backoff cleanVM (es : list Event) (s : ReaperFSM) :
  throttle_ok s → sleep_wakes cleanVM s es = 0%nat →
  (sleep (run cleanVM s es).1 ==
   Qmin (sleep s * pow2 (full_expiries cleanVM s es)) (maxSleep s))%Q.
Proof.
  revert s. induction es as [|e es IH]; intros s Hok Hw.
  - simpl. unfold pow2. simpl. destruct Hok as (_ & _ & Hhi).
    rewrite Q.min_l; [ring | lra].
  - rewrite run_cons_fst. simpl in Hw |- *.
    assert (Hw1 : is_sleep_wake s e = false) by (destruct (is_sleep_wake s e); [lia | done]).
    rewrite Hw1 in Hw. simpl in Hw.
    rewrite (IH _ (step_throttle_ok cleanVM s e Hok) Hw).
    destruct (step_throttle cleanVM s e) as (_ & -> & ->).
    unfold throttle_after. rewrite Hw1.
    destruct (is_full_expiry s e); simpl.
    + rewrite backoff_min, pow2_S.
      apply double_then_cap; [unfold throttle_ok in Hok; lra | apply pow2_ge_1].
    + reflexivity.
Qed.

Lemma run_anneal cleanVM (es : list Event) (s : ReaperFSM) :
  throttle_ok s → full_expiries cleanVM s es = 0%nat →
  (sleep (run cleanVM s es).1 ==
   Qmax (sleep s / pow2 (sleep_wakes cleanVM s es)) (minSleep s))%Q.
Proof.
  revert s. induction es as [|e es IH]; intros s Hok Hw.
  - simpl. unfold pow2. simpl. destruct Hok as (_ & Hlo & _).
    rewrite Q.max_l; [field | ].
    assert (E : (sleep s / 1 == sleep s)%Q) by field. rewrite E. exact Hlo.
  - rewrite run_cons_fst. simpl in Hw |- *.
    assert (Hw1 : is_full_expiry s e = false) by (destruct (is_full_expiry s e); [lia | done]).
    rewrite Hw1 in Hw. simpl in Hw.
    rewrite (IH _ (step_throttle_ok cleanVM s e Hok) Hw).
    destruct (step_throttle cleanVM s e) as (-> & _ & ->).
    unfold throttle_after. rewrite Hw1.
    destruct (is_sleep_wake s e); simpl.
    + rewrite anneal_max, pow2_S.
      apply halve_then_floor; [unfold throttle_ok in Hok; lra | apply pow2_ge_1].
    + reflexivity.
Qed.

(** C5: the throttle starts between [minSleep] and [maxSleep] and stays
    there along every run; when no wake arrives in state [sleep], N timer
    expiries of [sleep_full] leave it at min(initial * 2^N, maxSleep); when
    no [sleep_full] timer expires, N wakes in state [sleep] leave it at
    max(initial / 2^N, minSleep); entering [idle] does not assign it, nor
    does any handler but those two, so it carries over to the next cycle. *)
Theorem throttle_bounded_and_persistent cleanVM :
  throttle_ok init ∧
  ∀ (s : ReaperFSM) (es : list Event),
    throttle_ok s →
    let s' := (run cleanVM s es).1 in
    (minSleep s <= sleep s' ∧ sleep s' <= maxSleep s)%Q ∧
    (sleep_wakes cleanVM s es = 0%nat →
     (sleep s' ==
      Qmin (sleep s * pow2 (full_expiries cleanVM s es)) (maxSleep s))%Q) ∧
    (full_expiries cleanVM s es = 0%nat →
     (sleep s' ==
      Qmax (sleep s / pow2 (sleep_wakes cleanVM s es)) (minSleep s))%Q) ∧
    sleep (state_idle s).1 = sleep s ∧
    (∀ e, is_full_expiry s e = false → is_sleep_wake s e = false →
          sleep (step cleanVM s e).1 = sleep s).
Proof.
  split; [repeat split; discriminate|].
  intros s es Hok s'. subst s'. repeat split.
  - destruct (run_throttle_ok cleanVM es s Hok) as ((_ & H & _) & <- & _). exact H.
  - destruct (run_throttle_ok cleanVM es s Hok) as ((_ & _ & H) & _ & <-). exact H.
  - intros Hw. apply run_backoff; assumption.
  - intros Hx. apply run_anneal; assumption.
  - intros e H1 H2. destruct (step_throttle cleanVM s e) as (_ & _ & ->).
    unfold throttle_after. rewrite H1, H2. reflexivity.
Qed.

Lemma throttle_bounded_and_persistent_witness :
  let es := [start; scan_reply (inr ("0", ["vm:A"; "vm:B"]));
             hget_reply (inr (Some "1500000000")) 1600000000000;
             hget_reply (inr None) 1600000000000;
             get_reply (inr ∅) false; timer] in
  (sleep (run id init es).1 == Qmin (100 * pow2 1) 10000)%Q.
Proof.
  intros es.
  assert (Hok : throttle_ok init) by (repeat split; vm_compute; discriminate).
  destruct (proj2 (throttle_bounded_and_persistent id) init es Hok)
    as (_ & H & _).
  apply H. vm_compute. reflexivity.
Defined.

(** ** Wake signals in the two sleep states *)

(** C8: in state [sleep] a wake halves the throttle, floored at [minSleep],
    arms nothing and leaves the machine in [sleep]; only the timer makes it
    leave, towards [next].  In [sleep_full] a wake goes to [next] at once
    with the throttle as it was. *)
Theorem wake_in_sleep_states cleanVM (s : ReaperFSM) :
  (fsm_state s = St.sleep →
     step cleanVM s wake = (set_sleep (anneal s) s, []) ∧
     (anneal s == Qmax (sleep s / 2) (minSleep s))%Q ∧
     (∀ e, e ≠ timer → fsm_state (step cleanVM s e).1 = St.sleep) ∧
     step cleanVM s timer = state_next s) ∧
  (fsm_state s = St.sleep_full →
     step cleanVM s wake = state_next s ∧
     sleep (step cleanVM s wake).1 = sleep s).
Proof.
  split; intros Hst.
  - repeat split.
    + handlers. rewrite Hst. unfold anneal. simpl.
      destruct (Qltb _ _); reflexivity.
    + apply anneal_max.
    + intros e He. handlers. destruct e; try done; simpl; rewrite Hst;
        simpl; try done. destruct (Qltb _ _); simpl; exact Hst.
    + handlers. rewrite Hst. reflexivity.
  - assert (E : step cleanVM s wake = state_next s)
      by (handlers; rewrite Hst; reflexivity).
    split; [exact E|]. rewrite E. enter. simpl.
    destruct (remaining s); reflexivity.
Qed.

Lemma wake_in_sleep_states_witness :
  let s1 := set_state St.sleep (set_sleep 400 init) in
  let s2 := set_state St.sleep_full (set_sleep 400 init) in
  (step id s1 wake = (set_sleep (anneal s1) s1, []) ∧
   step id s1 timer = state_next s1) ∧
  step id s2 wake = state_next s2.
Proof.
  intros s1 s2. split.
  - destruct (proj1 (wake_in_sleep_states id s1) eq_refl) as (H1 & _ & _ & H2).
    split; assumption.
  - apply (proj2 (wake_in_sleep_states id s2) eq_refl).
Defined.


(** ** Walking the worklist *)

Lemma andThen_fst (o : Out) (k : ReaperFSM → Out) :
  (andThen o k).1 = (k o.1).1.
Proof. unfold andThen. destruct o as [s a]. simpl. destruct (k s); reflexivity. Qed.

Lemma andThen_snd (o : Out) (k : ReaperFSM → Out) :
  (andThen o k).2 = o.2 ++ (k o.1).2.
Proof. unfold andThen. destruct o as [s a]. simpl. destruct (k s); reflexivity. Qed.

Lemma run_nil cleanVM (s : ReaperFSM) : run cleanVM s [] = (s, []).
Proof. reflexivity. Qed.

Lemma run_cons cleanVM (s : ReaperFSM) (e : Event) (es : list Event) :
  run cleanVM s (e :: es) =
  andThen (step cleanVM s e) (fun s' => run cleanVM s' es).
Proof. reflexivity. Qed.

Lemma observe_fst cleanVM (s : ReaperFSM) (es : list Event) :
  (observe cleanVM s es).1 = (run cleanVM (state_next s).1 es).1.
Proof. apply andThen_fst. Qed.

Lemma observe_snd cleanVM (s : ReaperFSM) (es : list Event) :
  (observe cleanVM s es).2 =
  (state_next s).2 ++ (run cleanVM (state_next s).1 es).2.
Proof. apply andThen_snd. Qed.

Lemma state_next_cons (s : ReaperFSM) (uuid : string) (rest : list string) :
  remaining s = uuid :: rest →
  state_next s =
  (set_state St.checkLastVisited
     (set_vmuuid (Some uuid) (set_remaining rest (set_retries 3 s))),
   [S_timeout 1000; redis_hget (vmkey_of uuid) "last_visit"]).
Proof. intros H. unfold state_next. simpl. rewrite H. reflexivity. Qed.

Lemma step_last_visit_fresh cleanVM (s : ReaperFSM) (val : string) (clock : Z) :
  fsm_state s = St.checkLastVisited → fresh s val clock →
  step cleanVM s (hget_reply (inr (Some val)) clock) = state_next s.
Proof.
  intros Hst (lv & Hp & Hle). handlers. rewrite Hst, Hp.
  apply Qltb_ge in Hle. rewrite Hle. reflexivity.
Qed.

Lemma step_last_visit_stale cleanVM (s : ReaperFSM) (val : string) (clock : Z) :
  fsm_state s = St.checkLastVisited → stale s val clock →
  step cleanVM s (hget_reply (inr (Some val)) clock) = state_checkReaped s.
Proof.
  intros Hst (lv & Hp & Hlt). handlers. rewrite Hst, Hp.
  apply Qltb_lt in Hlt. rewrite Hlt. reflexivity.
Qed.

Lemma state_next_quiet (s : ReaperFSM) :
  List.filter is_fetch (state_next s).2 = [] ∧
  List.filter is_push (state_next s).2 = [] ∧
  List.filter is_mutation (state_next s).2 = [].
Proof.
  enter. simpl. destruct (remaining s); simpl; [destruct (onTimer s)|];
    repeat split.
Qed.

Lemma exec_all_quiet (st : Store) (acts : list Action) :
  List.filter is_mutation acts = [] → exec_all st acts = st.
Proof.
  unfold exec_all. revert st. induction acts as [|a acts IH]; intros st H; [done|].
  destruct a; simpl in *; try discriminate; apply IH; exact H.
Qed.

(** C4: a resource whose [last_visit] is at most [reapTime] old is left
    alone: the reply takes the machine from [checkLastVisited] straight to
    [next], and the visit issues no fetch, no push and no write or delete,
    so the store is as before. *)
Theorem fresh_resource_untouched cleanVM (st : Store) (s : ReaperFSM)
    (uuid : string) (rest : list string) (val : string) (clock : Z) :
  remaining s = uuid :: rest →
  hget st (vmkey_of uuid) "last_visit" = Some val →
  fresh s val clock →
  let reply := hget_reply (inr (hget st (vmkey_of uuid) "last_visit")) clock in
  let s1 := (state_next s).1 in
  let acts := (observe cleanVM s [reply]).2 in
  fsm_state s1 = St.checkLastVisited ∧ vmuuid s1 = Some uuid ∧
  step cleanVM s1 reply = state_next s1 ∧
  List.filter is_fetch acts = [] ∧ List.filter is_push acts = [] ∧
  List.filter is_mutation acts = [] ∧ exec_all st acts = st.
Proof.
  intros Hrem Hval Hfresh reply s1 acts.
  assert (Hs1 : fsm_state s1 = St.checkLastVisited)
    by (subst s1; rewrite (state_next_cons _ _ _ Hrem); reflexivity).
  assert (Hstep : step cleanVM s1 reply = state_next s1).
  { subst reply. rewrite Hval. apply step_last_visit_fresh; [exact Hs1|].
    subst s1. rewrite (state_next_cons _ _ _ Hrem). exact Hfresh. }
  assert (Hacts : acts = [S_timeout 1000; redis_hget (vmkey_of uuid) "last_visit"]
                         ++ (state_next s1).2).
  { subst acts. rewrite observe_snd. fold s1. rewrite run_cons_snd, Hstep.
    rewrite run_nil, app_nil_r, (state_next_cons _ _ _ Hrem). reflexivity. }
  destruct (state_next_quiet s1) as (Hf & Hp & Hm).
  assert (Hq : List.filter is_mutation acts = []) by (rewrite Hacts; simpl; exact Hm).
  repeat split; try assumption.
  - subst s1. rewrite (state_next_cons _ _ _ Hrem). reflexivity.
  - rewrite Hacts. simpl. exact Hf.
  - rewrite Hacts. simpl. exact Hp.
  - apply exec_all_quiet, Hq.
Qed.

Lemma fresh_resource_untouched_witness :
  let s := set_remaining ["A"] init in
  let reply := hget_reply (inr (hget sample_store_fresh "vm:A" "last_visit"))
                 1600000000000 in
  step id (state_next s).1 reply = state_next (state_next s).1 ∧
  exec_all sample_store_fresh (observe id s [reply]).2 = sample_store_fresh.
Proof.
  intros s reply.
  destruct (fresh_resource_untouched id sample_store_fresh s "A" []
              "1599999000" 1600000000000) as (_ & _ & H1 & _ & _ & _ & H2).
  - reflexivity.
  - vm_compute. reflexivity.
  - exists 1599999000. split; [reflexivity | vm_compute; discriminate].
  - split; assumption.
Defined.

(** ** The last_recs read of checkReaped *)

Lemma step_last_recs_error cleanVM (s : ReaperFSM) (err : string) (clock : Z) :
  fsm_state s = St.checkReaped St.last_recs →
  step cleanVM s (hget_reply (inl err) clock) =
  andThen (emit (redis_del (vmkey s)) s) state_next.
Proof. intros Hst. handlers. rewrite Hst. reflexivity. Qed.

(** C3, evaluated where the code departs from it: the machine waits in
    [checkReaped] for [last_recs] of a record whose [last_recs] is not empty,
    and the read fails.  The record is deleted and the machine moves to
    [next] (here: to [idle], the worklist being empty); [checkError] is not
    entered. *)
Theorem last_recs_read_error_deletes_record :
  let s := set_state (St.checkReaped St.last_recs)
             (set_vmuuid (Some "A") init) in
  let out := step id s (hget_reply (inl "ECONNRESET") 1600000000000) in
  hget sample_store_reaped "vm:A" "last_recs" = Some sample_last_recs ∧
  out = ((state_next s).1, [redis_del "vm:A"]) ∧
  fsm_state out.1 = St.idle ∧
  exec_all sample_store_reaped out.2 !! "vm:A" = None.
Proof. vm_compute. repeat split. Qed.

(** What does hold of C3: the timer of [checkReaped] covers both reads and
    leads to [checkError], as does an error of the first read; neither
    deletes anything. *)
Lemma checkReaped_failures_to_checkError cleanVM (s : ReaperFSM) :
  (∀ pending, fsm_state s = St.checkReaped pending →
     step cleanVM s timer = state_checkError (set_lastError RedisTimedOut s)) ∧
  (∀ err clock, fsm_state s = St.checkReaped St.reaped →
     step cleanVM s (hget_reply (inl err) clock) =
     state_checkError (set_lastError (RedisError err) s)) ∧
  (∀ s', List.filter is_mutation (state_checkError s').2 = []).
Proof.
  repeat split.
  - intros p Hst. handlers. rewrite Hst. reflexivity.
  - intros err clock Hst. handlers. rewrite Hst. reflexivity.
Qed.

(** ** A full sink *)

Lemma run_app cleanVM (es1 es2 : list Event) (s : ReaperFSM) :
  run cleanVM s (es1 ++ es2) =
  andThen (run cleanVM s es1) (fun s' => run cleanVM s' es2).
Proof.
  revert s. induction es1 as [|e es1 IH]; intros s; simpl.
  - unfold andThen. destruct (run cleanVM s es2); reflexivity.
  - unfold andThen in *. destruct (step cleanVM s e) as [s1 a1].
    rewrite IH. destruct (run cleanVM s1 es1) as [s2 a2].
    destruct (run cleanVM s2 es2) as [s3 a3]. rewrite app_assoc. reflexivity.
Qed.

Lemma sleep_full_waits cleanVM (es : list Event) (s : ReaperFSM) :
  fsm_state s = St.sleep_full →
  Forall (fun e => leaves_sleep_full e = false) es →
  ∃ b : bool, run cleanVM s es = (if b then set_onTimer true s else s, []).
Proof.
  revert s. induction es as [|e es IH]; intros s Hst Hq.
  - exists false. reflexivity.
  - inversion Hq as [|? ? He Hq']; subst.
    destruct e; try discriminate; simpl; handlers; simpl; rewrite Hst; simpl.
    + destruct (IH (set_onTimer true s) Hst Hq') as [b ->].
      exists true. destruct b; reflexivity.
    + destruct (IH s Hst Hq') as [b ->]. exists b. reflexivity.
    + destruct (IH s Hst Hq') as [b ->]. exists b. reflexivity.
    + destruct (IH s Hst Hq') as [b ->]. exists b. reflexivity.
Qed.

Lemma step_leaves_sleep_full cleanVM (s : ReaperFSM) (e : Event) :
  fsm_state s = St.sleep_full → leaves_sleep_full e = true →
  ∃ s', step cleanVM s e = state_next s' ∧ remaining s' = remaining s.
Proof.
  intros Hst He. destruct e; try discriminate; handlers; rewrite Hst.
  - exists s. done.
  - eexists. split; [reflexivity|]. simpl. destruct (Qltb _ _); reflexivity.
Qed.

Lemma state_next_takes_head (s : ReaperFSM) :
  match remaining s with
  | uuid :: rest =>
      fsm_state (state_next s).1 = St.checkLastVisited ∧
      vmuuid (state_next s).1 = Some uuid ∧
      remaining (state_next s).1 = rest
  | [] => fsm_state (state_next s).1 = St.idle ∧ remaining (state_next s).1 = []
  end.
Proof.
  enter. simpl. destruct (remaining s) eqn:E; simpl; [|done].
  destruct (onTimer s); done.
Qed.

Lemma walks_on_keep (s s' : ReaperFSM) :
  walking (fsm_state s') = true → vmuuid s' = vmuuid s →
  remaining s' = remaining s → walks_on s s'.
Proof. intros. right. split; [assumption|]. left. split; assumption. Qed.

Lemma walks_on_next (s s0 : ReaperFSM) :
  remaining s0 = remaining s → walks_on s (state_next s0).1.
Proof.
  intros Hr. pose proof (state_next_takes_head s0) as H. rewrite Hr in H.
  destruct (remaining s) as [|u rest] eqn:E.
  - left. apply H.
  - destruct H as (H1 & H2 & H3). right. rewrite H1, H2, H3.
    split; [reflexivity|]. right. exists u. done.
Qed.

Lemma walk_step cleanVM (s : ReaperFSM) (e : Event) :
  walking (fsm_state s) = true → walks_on s (step cleanVM s e).1.
Proof.
  intros Hw.
  destruct (fsm_state s) as [| | | |[]| | | |] eqn:Hst; try discriminate;
    destruct e; handlers; unfold fetch; cbn [fsm_state set_onTimer];
    rewrite ?Hst;
    repeat case_match; rewrite ?andThen_fst;
    first [ apply walks_on_next; reflexivity
          | apply walks_on_keep; [cbn; rewrite ?Hst; reflexivity|reflexivity..] ].
Qed.

Lemma takes_from_next (s s0 : ReaperFSM) :
  vmuuid s0 = vmuuid s → takes_from s (remaining s0) (state_next s0).1.
Proof.
  intros Hv. pose proof (state_next_takes_head s0) as H.
  destruct (remaining s0) as [|u rest] eqn:E.
  - left. split; [|apply H]. rewrite <- Hv. enter. simpl. rewrite E. reflexivity.
  - destruct H as (_ & H2 & H3). right. exists u. rewrite H3. done.
Qed.

(** In every state and at every event: the resource in hand changes only by
    taking the head of the worklist, and the worklist grows only by the ids
    of a scan page. *)
Lemma worklist_discipline cleanVM (s : ReaperFSM) (e : Event) :
  takes_from s (remaining s ++ scanned s e) (step cleanVM s e).1.
Proof.
  unfold scanned.
  destruct (fsm_state s) as [| | | |[]| | | |] eqn:Hst;
    destruct e as [| | |[?|[? ?]]|[?|[?|]] ?|[[? ?]|?] ?];
    rewrite ?app_nil_r;
    handlers; unfold fetch; cbn [fsm_state set_onTimer]; rewrite ?Hst;
    repeat case_match; rewrite ?andThen_fst;
    first [ left; split; reflexivity
          | match goal with
            | |- takes_from _ _ (state_next ?s0).1 =>
                exact (takes_from_next s s0 eq_refl)
            end ].
Qed.

(** Until the machine is idle again it handles only the resource it has in
    hand and ids taken from the worklist. *)
Lemma walk_run cleanVM (es : list Event) (s : ReaperFSM) :
  walking (fsm_state s) = true → never_idle cleanVM s es = true →
  walking (fsm_state (run cleanVM s es).1) = true ∧
  (vmuuid (run cleanVM s es).1 = vmuuid s ∨
   ∃ u, vmuuid (run cleanVM s es).1 = Some u ∧ In u (remaining s)).
Proof.
  revert s. induction es as [|e es IH]; intros s Hw Hn; [by split; [|left]|].
  unfold never_idle in Hn. cbn [states_visited forallb] in Hn.
  apply andb_true_iff in Hn as [Hi Hn]. rewrite run_cons_fst.
  destruct (walk_step cleanVM s e Hw) as [Hidle|(Hw' & Hcase)].
  { rewrite Hidle in Hi. discriminate. }
  destruct (IH _ Hw' Hn) as (Hw'' & Hv). split; [exact Hw''|].
  destruct Hcase as [(Hu & Hr)|(u & Hr & Hu)].
  - rewrite Hu, Hr in Hv. exact Hv.
  - right. destruct Hv as [Hv|(u' & Hv & Hin)].
    + exists u. rewrite Hv, Hu, Hr. split; [reflexivity | by left].
    + exists u'. rewrite Hr. split; [exact Hv | by right].
Qed.

(** C9 as stated fails when the worklist holds the id twice: the sink is
    full at the first visit to [A], whose fetched state is terminal, and
    nothing is written; from [sleep_full] the timer leads to [next], and [A]
    is in hand again, is fetched again and is marked [reaped], all before
    the machine is idle. *)
Lemma sink_full_duplicate_counterexample :
  states_visited id init (twice_paged sample_destroyed false) =
    [St.listVms; St.listVms; St.checkLastVisited;
     St.checkReaped St.reaped; St.fetchAndPush; St.sleep_full;
     St.checkLastVisited; St.checkReaped St.reaped; St.fetchAndPush;
     St.sleep] ∧
  handles_twice (twice_paged sample_destroyed false)
    [redis_hset "vm:A" "reaped" "yes"] ∧
  handles_twice (twice_listed sample_destroyed false)
    [redis_hset "vm:A" "reaped" "yes"].
Proof. vm_compute. repeat split. Qed.

(** C9 as amended: when [push] returns [false] the fetch callback goes to
    [sleep_full] having issued the push and nothing else, whatever the
    fetched state (terminal or not).  The machine then waits there until a
    wake or its timer, and passes to [next], which takes the head of the
    worklist (or goes [idle] when none is left).  Over this path no write or
    delete is issued and the worklist is not extended.  Until the machine is
    idle again it handles only ids that were already on the worklist, so the
    resource comes up again in this cycle only if its id was listed more
    than once; and at all times a resource is taken in hand only from the
    worklist, which only scan pages extend. *)
Theorem sink_full_skips_marker cleanVM (s : ReaperFSM) (obj : VMObj)
    (es : list Event) (e_last : Event) :
  fsm_state s = St.fetchAndPush →
  Forall (fun e => leaves_sleep_full e = false) es →
  leaves_sleep_full e_last = true →
  let out := run cleanVM s (get_reply (inr obj) false :: es ++ [e_last]) in
  step cleanVM s (get_reply (inr obj) false) =
    (set_state St.sleep_full s,
     [stream_push (fetched cleanVM obj); S_timeout (sleep s)]) ∧
  List.filter is_mutation out.2 = [] ∧
  List.filter is_push out.2 = [stream_push (fetched cleanVM obj)] ∧
  List.filter is_fetch out.2 = [] ∧
  match remaining s with
  | uuid :: rest =>
      fsm_state out.1 = St.checkLastVisited ∧ vmuuid out.1 = Some uuid ∧
      remaining out.1 = rest
  | [] => fsm_state out.1 = St.idle ∧ remaining out.1 = []
  end ∧
  (∀ more u, remaining s ≠ [] → never_idle cleanVM out.1 more = true →
     vmuuid (run cleanVM out.1 more).1 = Some u → In u (remaining s)) ∧
  (∀ s0 e, takes_from s0 (remaining s0 ++ scanned s0 e) (step cleanVM s0 e).1).
Proof.
  intros Hst Hq Hlast out.
  assert (Hstep : step cleanVM s (get_reply (inr obj) false) =
                  (set_state St.sleep_full s,
                   [stream_push (fetched cleanVM obj); S_timeout (sleep s)])).
  { handlers. rewrite Hst. reflexivity. }
  split; [exact Hstep|].
  set (s1 := set_state St.sleep_full s) in *.
  destruct (sleep_full_waits cleanVM es s1 eq_refl Hq) as [b Hrun].
  set (s2 := if b then set_onTimer true s1 else s1) in *.
  assert (Hs2 : fsm_state s2 = St.sleep_full ∧ remaining s2 = remaining s)
    by (subst s2; destruct b; done).
  destruct (step_leaves_sleep_full cleanVM s2 e_last (proj1 Hs2) Hlast)
    as (s3 & Hs3 & Hrem3).
  assert (Hout : out = (( state_next s3).1,
                        [stream_push (fetched cleanVM obj); S_timeout (sleep s)]
                        ++ (state_next s3).2)).
  { subst out. rewrite run_cons, Hstep. unfold andThen at 1.
    rewrite run_app, Hrun. unfold andThen. simpl. rewrite Hs3.
    destruct (state_next s3). simpl. rewrite app_nil_r. reflexivity. }
  rewrite Hout. simpl.
  destruct (state_next_quiet s3) as (Hf & Hp & Hm).
  rewrite Hf, Hp, Hm. do 3 (split; [reflexivity|]).
  pose proof (state_next_takes_head s3) as H.
  rewrite Hrem3, (proj2 Hs2) in H. split; [exact H|].
  split; [|apply worklist_discipline].
  intros more u Hne Hn Hu. destruct (remaining s) as [|uuid rest]; [done|].
  destruct H as (Hc & Hv & Hr).
  destruct (walk_run cleanVM more (state_next s3).1) as (_ & Hwalk);
    [rewrite Hc; reflexivity | exact Hn |].
  rewrite Hv, Hr, Hu in Hwalk.
  destruct Hwalk as [[= ->]|(u' & [= ->] & Hin)]; [by left | by right].
Qed.

Lemma sink_full_skips_marker_witness :
  let s := set_state St.fetchAndPush
             (set_vmuuid (Some "A") (set_remaining ["B"] init)) in
  let obj : VMObj := {[ "state" := JString "destroyed" ]} in
  let out := run id s (get_reply (inr obj) false :: [start] ++ [timer]) in
  terminal (fetched id obj) = true ∧
  List.filter is_mutation out.2 = [] ∧ vmuuid out.1 = Some "B".
Proof.
  intros s obj out. split; [reflexivity|].
  destruct (sink_full_skips_marker id s obj [start] timer)
    as (_ & Hm & _ & _ & (_ & Hu & _) & _).
  - reflexivity.
  - repeat constructor.
  - reflexivity.
  - split; assumption.
Defined.

(** ** A stale resource without the reaped marker *)

Lemma visit_stale_unmarked cleanVM (s : ReaperFSM) (uuid : string)
    (rest : list string) (val : string) (clock clock' : Z) (obj : VMObj)
    (accepted : bool) :
  remaining s = uuid :: rest → stale s val clock →
  observe cleanVM s [hget_reply (inr (Some val)) clock;
                     hget_reply (inr None) clock';
                     get_reply (inr obj) accepted] =
  (set_state (if accepted then St.sleep else St.sleep_full)
     (set_vmuuid (Some uuid) (set_remaining rest (set_retries 3 s))),
   [S_timeout 1000; redis_hget (vmkey_of uuid) "last_visit";
    S_timeout 1000; redis_hget (vmkey_of uuid) "reaped";
    S_timeout 5000; client_get ("/vms/" +:+ uuid);
    stream_push (fetched cleanVM obj)] ++
   (if accepted && terminal (fetched cleanVM obj)
    then [redis_hset (vmkey_of uuid) "reaped" "yes"] else []) ++
   [S_timeout (sleep s)]).
Proof.
  intros Hrem Hstale. unfold observe.
  rewrite (state_next_cons _ _ _ Hrem). unfold andThen at 1.
  rewrite run_cons, step_last_visit_stale; [|reflexivity|exact Hstale].
  unfold fetched. simpl run. handlers. unfold fetch. enter. simpl.
  destruct accepted; simpl; [destruct (terminal _)|]; reflexivity.
Qed.

Lemma hget_hset (st : Store) (key field value : string) :
  hget (hset st key field value) key field = Some value.
Proof.
  unfold hget, hset. rewrite lookup_insert_eq. simpl. apply lookup_insert_eq.
Qed.

Lemma exec_all_app (st : Store) (a b : list Action) :
  exec_all st (a ++ b) = exec_all (exec_all st a) b.
Proof. unfold exec_all. apply foldl_app. Qed.

(** C1 as amended: a stale resource without the [reaped] marker is fetched
    once and then pushed once in the visit, and [reaped] is written as [yes]
    exactly when the fetched state is terminal and the sink took the push
    without reporting itself full. *)
Theorem stale_unmarked_fetch_push cleanVM (st : Store) (s : ReaperFSM)
    (uuid : string) (rest : list string) (val : string) (clock clock' : Z)
    (obj : VMObj) (accepted : bool) :
  remaining s = uuid :: rest →
  hget st (vmkey_of uuid) "last_visit" = Some val → stale s val clock →
  hget st (vmkey_of uuid) "reaped" = None →
  let es := [hget_reply (inr (hget st (vmkey_of uuid) "last_visit")) clock;
             hget_reply (inr (hget st (vmkey_of uuid) "reaped")) clock';
             get_reply (inr obj) accepted] in
  let acts := (observe cleanVM s es).2 in
  List.filter (fun a => is_fetch a || is_push a) acts =
    [client_get ("/vms/" +:+ uuid); stream_push (fetched cleanVM obj)] ∧
  List.filter is_mutation acts =
    (if accepted && terminal (fetched cleanVM obj)
     then [redis_hset (vmkey_of uuid) "reaped" "yes"] else []) ∧
  (hget (exec_all st acts) (vmkey_of uuid) "reaped" = Some "yes" ↔
   terminal (fetched cleanVM obj) = true ∧ accepted = true).
Proof.
  intros Hrem Hval Hstale Hreaped es acts. subst acts es.
  rewrite Hval, Hreaped, (visit_stale_unmarked _ _ _ _ _ _ _ _ _ Hrem Hstale).
  cbn [snd]. destruct accepted, (terminal (fetched cleanVM obj)) eqn:Ht;
    cbn [andb]; (split; [reflexivity|]); (split; [reflexivity|]).
  - rewrite !exec_all_app. cbn. rewrite hget_hset. done.
  - rewrite exec_all_quiet by reflexivity. rewrite Hreaped.
    split; [discriminate | intros [? _]; discriminate].
  - rewrite exec_all_quiet by reflexivity. rewrite Hreaped.
    split; [discriminate | intros [_ ?]; discriminate].
  - rewrite exec_all_quiet by reflexivity. rewrite Hreaped.
    split; [discriminate | intros [? _]; discriminate].
Qed.

(** C1 as stated fails in two ways.  When the sink is full, the fetched
    state is terminal, the fetch and the push happen, and [reaped] is not
    written.  And when the scan has listed the resource twice, one cycle
    fetches and pushes it twice, writing nothing in between. *)
Lemma stale_unmarked_sink_full_counterexample :
  let st := sample_store_stale in
  let s := set_remaining ["A"] init in
  let es := [hget_reply (inr (hget st "vm:A" "last_visit")) 1600000000000;
             hget_reply (inr (hget st "vm:A" "reaped")) 1600000000000;
             get_reply (inr sample_destroyed) false] in
  let acts := (observe id s es).2 in
  (stale s "1500000000" 1600000000000 ∧ hget st "vm:A" "reaped" = None) ∧
  List.filter (fun a => is_fetch a || is_push a) acts =
    [client_get "/vms/A"; stream_push (fetched id sample_destroyed)] ∧
  terminal (fetched id sample_destroyed) = true ∧
  hget (exec_all st acts) "vm:A" "reaped" = None ∧
  ¬ (hget (exec_all st acts) "vm:A" "reaped" = Some "yes" ↔
     terminal (fetched id sample_destroyed) = true) ∧
  handles_twice (twice_paged sample_running true) [] ∧
  handles_twice (twice_listed sample_running true) [].
Proof.
  intros st s es acts.
  assert (Hnone : hget (exec_all st acts) "vm:A" "reaped" = None)
    by (vm_compute; reflexivity).
  split; [split; [|reflexivity]|].
  { exists 1500000000. split; [reflexivity | vm_compute; reflexivity]. }
  split; [vm_compute; reflexivity|]. split; [reflexivity|].
  split; [exact Hnone|]. split.
  { rewrite Hnone. intros [_ H]. discriminate (H eq_refl). }
  split; vm_compute; repeat split.
Qed.

Lemma stale_unmarked_fetch_push_witness :
  let st := sample_store_stale in
  let s := set_remaining ["A"] init in
  let es := [hget_reply (inr (hget st "vm:A" "last_visit")) 1600000000000;
             hget_reply (inr (hget st "vm:A" "reaped")) 1600000000000;
             get_reply (inr sample_destroyed) true] in
  let acts := (observe id s es).2 in
  List.filter (fun a => is_fetch a || is_push a) acts =
    [client_get "/vms/A"; stream_push (fetched id sample_destroyed)] ∧
  hget (exec_all st acts) "vm:A" "reaped" = Some "yes".
Proof.
  intros st s es acts.
  destruct (stale_unmarked_fetch_push id st s "A" [] "1500000000"
              1600000000000 1600000000000 sample_destroyed true)
    as (H1 & _ & H2).
  - reflexivity.
  - vm_compute. reflexivity.
  - exists 1500000000. split; [reflexivity | vm_compute; reflexivity].
  - vm_compute. reflexivity.
  - split; [exact H1|]. apply H2. split; reflexivity.
Defined.

(** ** A stale resource already marked reaped *)

Lemma visit_reaped_empty cleanVM (s : ReaperFSM) (uuid : string)
    (rest : list string) (val r : string) (lr : option string)
    (clock c1 c2 : Z) :
  remaining s = uuid :: rest → stale s val clock →
  last_recs_empty lr = true →
  let s1 := set_state (St.checkReaped St.last_recs)
              (set_vmuuid (Some uuid) (set_remaining rest (set_retries 3 s))) in
  observe cleanVM s [hget_reply (inr (Some val)) clock;
                     hget_reply (inr (Some r)) c1;
                     hget_reply (inr lr) c2] =
  ((state_next s1).1,
   [S_timeout 1000; redis_hget (vmkey_of uuid) "last_visit";
    S_timeout 1000; redis_hget (vmkey_of uuid) "reaped";
    redis_hget (vmkey_of uuid) "last_recs"; redis_del (vmkey_of uuid)] ++
   (state_next s1).2).
Proof.
  intros Hrem Hstale Hlr s1. subst s1. unfold observe.
  rewrite (state_next_cons _ _ _ Hrem). unfold andThen at 1.
  rewrite run_cons, step_last_visit_stale; [|reflexivity|exact Hstale].
  simpl run. handlers. enter. simpl.
  destruct lr as [v|]; simpl in Hlr; rewrite ?Hlr;
    (destruct rest; [destruct (onTimer s)|]); reflexivity.
Qed.

Lemma visit_reaped_pending cleanVM (s : ReaperFSM) (uuid : string)
    (rest : list string) (val r v : string) (clock c1 c2 : Z) (obj : VMObj)
    (accepted : bool) :
  remaining s = uuid :: rest → stale s val clock → v ≠ "{}" →
  observe cleanVM s [hget_reply (inr (Some val)) clock;
                     hget_reply (inr (Some r)) c1;
                     hget_reply (inr (Some v)) c2;
                     get_reply (inr obj) accepted] =
  (set_state (if accepted then St.sleep else St.sleep_full)
     (set_vmuuid (Some uuid) (set_remaining rest (set_retries 3 s))),
   [S_timeout 1000; redis_hget (vmkey_of uuid) "last_visit";
    S_timeout 1000; redis_hget (vmkey_of uuid) "reaped";
    redis_hget (vmkey_of uuid) "last_recs";
    S_timeout 5000; client_get ("/vms/" +:+ uuid);
    stream_push (fetched cleanVM obj)] ++
   (if accepted && terminal (fetched cleanVM obj)
    then [redis_hset (vmkey_of uuid) "reaped" "yes"] else []) ++
   [S_timeout (sleep s)]).
Proof.
  intros Hrem Hstale Hv. unfold observe.
  rewrite (state_next_cons _ _ _ Hrem). unfold andThen at 1.
  rewrite run_cons, step_last_visit_stale; [|reflexivity|exact Hstale].
  apply String.eqb_neq in Hv.
  unfold fetched. simpl run. handlers. unfold fetch. enter. simpl. rewrite Hv.
  destruct accepted; simpl; [destruct (terminal _)|]; reflexivity.
Qed.

Lemma last_recs_empty_spec (lr : option string) :
  last_recs_empty lr = true ↔ lr = None ∨ lr = Some "{}".
Proof.
  destruct lr as [v|]; simpl.
  - rewrite String.eqb_eq. split; [intros ->; by right|].
    intros [?|[= ->]]; done.
  - split; [by left | done].
Qed.

(** C2: a stale resource that carries the [reaped] marker.  When its
    [last_recs] is absent or is the empty object, the visit deletes the key
    and neither fetches nor pushes.  When [last_recs] holds anything else,
    the visit fetches once and pushes once, issues no delete, and the key
    is still in the store afterwards. *)
Theorem reaped_resource_disposal cleanVM (st : Store) (s : ReaperFSM)
    (uuid : string) (rest : list string) (val r : string) (clock c1 c2 : Z) :
  let key := vmkey_of uuid in
  let reads := [hget_reply (inr (hget st key "last_visit")) clock;
                hget_reply (inr (hget st key "reaped")) c1;
                hget_reply (inr (hget st key "last_recs")) c2] in
  remaining s = uuid :: rest →
  hget st key "last_visit" = Some val → stale s val clock →
  hget st key "reaped" = Some r →
  (hget st key "last_recs" = None ∨ hget st key "last_recs" = Some "{}" →
   let acts := (observe cleanVM s reads).2 in
   List.filter is_fetch acts = [] ∧ List.filter is_push acts = [] ∧
   List.filter is_mutation acts = [redis_del key] ∧
   exec_all st acts !! key = None) ∧
  (∀ v obj accepted, hget st key "last_recs" = Some v → v ≠ "{}" →
   let acts := (observe cleanVM s (reads ++ [get_reply (inr obj) accepted])).2 in
   List.filter (fun a => is_fetch a || is_push a) acts =
     [client_get ("/vms/" +:+ uuid); stream_push (fetched cleanVM obj)] ∧
   (∀ k, ¬ In (redis_del k) acts) ∧
   is_Some (exec_all st acts !! key)).
Proof.
  intros key reads Hrem Hval Hstale Hr. subst reads. rewrite Hval, Hr. split.
  - intros Hlr%last_recs_empty_spec acts. subst acts.
    rewrite (visit_reaped_empty _ _ _ _ _ _ _ _ _ _ Hrem Hstale Hlr).
    cbn [snd]. set (s1 := set_state _ _).
    destruct (state_next_quiet s1) as (Hf & Hp & Hm).
    rewrite !List.filter_app, Hf, Hp, Hm. repeat split.
    rewrite exec_all_app, (exec_all_quiet _ (state_next s1).2 Hm).
    cbn. apply lookup_delete_eq.
  - intros v obj accepted Hlr Hv acts. subst acts. rewrite Hlr. cbn [app].
    rewrite (visit_reaped_pending _ _ _ _ _ _ _ _ _ _ _ _ Hrem Hstale Hv).
    cbn [snd]. assert (Hkey : is_Some (st !! key)).
    { unfold hget in Hval. destruct (st !! key); [eauto | discriminate]. }
    destruct (accepted && terminal (fetched cleanVM obj)); cbn.
    + repeat split.
      * intros k Hin. repeat (destruct Hin as [Hin|Hin]; [discriminate|]). done.
      * unfold hset. rewrite lookup_insert_eq. eauto.
    + repeat split.
      * intros k Hin. repeat (destruct Hin as [Hin|Hin]; [discriminate|]). done.
      * exact Hkey.
Qed.

Lemma reaped_resource_disposal_witness :
  let st : Store := {[ "vm:B" := {[ "last_visit" := "1500000000";
                                    "reaped" := "yes"; "last_recs" := "{}" ]} ]} in
  let s := set_remaining ["B"] init in
  (exec_all st
     (observe id s
        [hget_reply (inr (hget st "vm:B" "last_visit")) 1600000000000;
         hget_reply (inr (hget st "vm:B" "reaped")) 1600000000000;
         hget_reply (inr (hget st "vm:B" "last_recs")) 1600000000000]).2
   !! "vm:B" = None) ∧
  is_Some (exec_all sample_store_reaped
     (observe id (set_remaining ["A"] init)
        ([hget_reply (inr (hget sample_store_reaped "vm:A" "last_visit")) 1600000000000;
          hget_reply (inr (hget sample_store_reaped "vm:A" "reaped")) 1600000000000;
          hget_reply (inr (hget sample_store_reaped "vm:A" "last_recs")) 1600000000000]
         ++ [get_reply (inr sample_destroyed) true])).2
   !! "vm:A").
Proof.
  intros st s. split.
  - destruct (reaped_resource_disposal id st s "B" [] "1500000000" "yes"
                1600000000000 1600000000000 1600000000000) as [H _].
    + reflexivity.
    + vm_compute. reflexivity.
    + exists 1500000000. split; [reflexivity | vm_compute; reflexivity].
    + vm_compute. reflexivity.
    + apply H. right. vm_compute. reflexivity.
  - destruct (reaped_resource_disposal id sample_store_reaped
                (set_remaining ["A"] init) "A" [] "1500000000" "yes"
                1600000000000 1600000000000 1600000000000) as [_ H].
    + reflexivity.
    + vm_compute. reflexivity.
    + exists 1500000000. split; [reflexivity | vm_compute; reflexivity].
    + vm_compute. reflexivity.
    + apply (H sample_last_recs sample_destroyed true);
        [vm_compute; reflexivity | vm_compute; discriminate].
Defined.

(** ** The retry budget *)

Lemma failure_enters_checkError cleanVM (s : ReaperFSM) (e : Event)
    (err : ReaperError) :
  check_failure s e = Some err →
  step cleanVM s e = state_checkError (set_lastError err s).
Proof.
  unfold check_failure. handlers. unfold fetch.
  destruct (fsm_state s) as [| | | |[]| | | |]; destruct e; try discriminate;
    repeat case_match; try discriminate; intros [= <-]; reflexivity.
Qed.

Lemma run_stale_unmarked cleanVM (s : ReaperFSM) (val : string)
    (clock clock' : Z) (obj : VMObj) :
  fsm_state s = St.checkLastVisited → stale s val clock →
  run cleanVM s [hget_reply (inr (Some val)) clock;
                 hget_reply (inr None) clock';
                 get_reply (inr obj) true] =
  (set_state St.sleep s,
   [S_timeout 1000; redis_hget (vmkey s) "reaped";
    S_timeout 5000; client_get ("/vms/" +:+ uuid_text s);
    stream_push (fetched cleanVM obj)] ++
   (if terminal (fetched cleanVM obj)
    then [redis_hset (vmkey s) "reaped" "yes"] else []) ++
   [S_timeout (sleep s)]).
Proof.
  intros Hst Hstale.
  rewrite run_cons, step_last_visit_stale; [|exact Hst|exact Hstale].
  unfold fetched. simpl run. handlers. unfold fetch. enter. simpl.
  destruct (terminal _); reflexivity.
Qed.

Lemma attempt_fails cleanVM (s : ReaperFSM) (val : string) (clock : Z)
    (f : Failure) :
  fsm_state s = St.checkLastVisited → stale s val clock →
  ∃ acts,
    run cleanVM s (attempt val clock f) =
    (set_retries (retries s - 1)
       (set_state St.checkError (set_lastError (failure_error f) s)), acts) ∧
    List.filter is_push acts = [] ∧ List.filter is_mutation acts = [].
Proof.
  intros Hst Hstale. destruct f; simpl attempt.
  1,2: eexists; split;
    [rewrite run_cons; unfold step; handlers; rewrite Hst; reflexivity
    | split; reflexivity].
  all: rewrite run_cons, step_last_visit_stale; [|exact Hst|exact Hstale];
    eexists; split;
    [simpl run; handlers; unfold fetch; enter; simpl; reflexivity
    | split; reflexivity].
Qed.

Lemma retry_round cleanVM (s : ReaperFSM) (val : string) (clock : Z)
    (f : Failure) :
  fsm_state s = St.checkLastVisited → stale s val clock → 0 < retries s - 1 →
  ∃ acts,
    run cleanVM s (attempt val clock f ++ [timer]) =
    (set_state St.checkLastVisited
       (set_retries (retries s - 1) (set_lastError (failure_error f) s)),
     acts) ∧
    List.filter is_push acts = [] ∧ List.filter is_mutation acts = [].
Proof.
  intros Hst Hstale Hpos.
  destruct (attempt_fails cleanVM s val clock f Hst Hstale) as (acts & Hrun & Hp & Hm).
  eexists. rewrite run_app, Hrun. unfold andThen. rewrite run_cons.
  unfold step, on_timer, checkError_timeout.
  cbn [fsm_state set_retries set_state retries].
  apply Z.ltb_lt in Hpos. rewrite Hpos.
  unfold state_checkLastVisited, andThen. cbn [run].
  split; [reflexivity|]. rewrite !List.filter_app, Hp, Hm. split; reflexivity.
Qed.

Lemma last_round cleanVM (s : ReaperFSM) (val : string) (clock : Z)
    (f : Failure) :
  fsm_state s = St.checkLastVisited → stale s val clock → retries s - 1 <= 0 →
  ∃ s' acts,
    run cleanVM s (attempt val clock f ++ [timer]) =
    ((state_next s').1, acts ++ (state_next s').2) ∧
    remaining s' = remaining s ∧
    List.filter is_push acts = [] ∧ List.filter is_mutation acts = [].
Proof.
  intros Hst Hstale Hzero.
  destruct (attempt_fails cleanVM s val clock f Hst Hstale) as (acts & Hrun & Hp & Hm).
  exists (set_retries (retries s - 1)
            (set_state St.checkError (set_lastError (failure_error f) s))), acts.
  rewrite run_app, Hrun. unfold andThen. rewrite run_cons.
  unfold step, on_timer, checkError_timeout.
  cbn [fsm_state set_retries set_state retries].
  apply Z.ltb_ge in Hzero. rewrite Hzero.
  split; [|split; [reflexivity|split; eassumption]].
  unfold andThen. destruct (state_next _). cbn [run fst snd].
  rewrite app_nil_r. reflexivity.
Qed.

(** The retry mechanism, for the failures that reach it: [next] sets
    [retries] to 3 as it takes a resource.  Every failing handler listed in
    [check_failure] enters [checkError],
    which decrements the counter and issues nothing but a timer: one second
    while the counter is positive, after which the same resource is read
    again from [checkLastVisited]; five seconds at zero, after which the
    machine goes to [next].  So two failed attempts followed by a good one
    end with the resource fetched and pushed in this visit, and three
    failed attempts end at the following worklist entry with nothing pushed,
    written or deleted. *)
Theorem retry_budget cleanVM (s : ReaperFSM) :
  retries (state_next s).1 = 3 ∧
  (∀ e err, check_failure s e = Some err →
     step cleanVM s e =
     (set_retries (retries s - 1)
        (set_state St.checkError (set_lastError err s)),
      [S_timeout (if 0 <? retries s - 1 then 1000 else 5000)%Q])) ∧
  (fsm_state s = St.checkError → 0 < retries s →
     step cleanVM s timer =
     (set_state St.checkLastVisited s,
      [S_timeout 1000; redis_hget (vmkey s) "last_visit"])) ∧
  (fsm_state s = St.checkError → retries s <= 0 →
     step cleanVM s timer = state_next s ∧
     List.filter is_push (state_next s).2 = [] ∧
     List.filter is_mutation (state_next s).2 = []) ∧
  (∀ uuid rest val clock f1 f2,
     remaining s = uuid :: rest → stale s val clock →
     let twice := attempt val clock f1 ++ [timer] ++
                  attempt val clock f2 ++ [timer] in
     (∀ obj,
        let out := observe cleanVM s
                     (twice ++ [hget_reply (inr (Some val)) clock;
                                hget_reply (inr None) clock;
                                get_reply (inr obj) true]) in
        fsm_state out.1 = St.sleep ∧ vmuuid out.1 = Some uuid ∧
        remaining out.1 = rest ∧ retries out.1 = 1 ∧
        List.filter is_push out.2 = [stream_push (fetched cleanVM obj)] ∧
        List.filter is_mutation out.2 =
          (if terminal (fetched cleanVM obj)
           then [redis_hset (vmkey_of uuid) "reaped" "yes"] else [])) ∧
     (∀ f3,
        let out := observe cleanVM s
                     (twice ++ attempt val clock f3 ++ [timer]) in
        List.filter is_push out.2 = [] ∧ List.filter is_mutation out.2 = [] ∧
        match rest with
        | uuid' :: rest' =>
            fsm_state out.1 = St.checkLastVisited ∧
            vmuuid out.1 = Some uuid' ∧ remaining out.1 = rest'
        | [] => fsm_state out.1 = St.idle ∧ remaining out.1 = []
        end)).
Proof.
  split; [|split; [|split; [|split]]].
  - enter. simpl. destruct (remaining s); reflexivity.
  - intros e err H. rewrite (failure_enters_checkError _ _ _ _ H). reflexivity.
  - intros Hst Hpos. unfold step, on_timer, checkError_timeout. rewrite Hst.
    apply Z.ltb_lt in Hpos. rewrite Hpos. reflexivity.
  - intros Hst Hz. destruct (state_next_quiet s) as (_ & Hp & Hm).
    split; [|split; assumption].
    unfold step, on_timer, checkError_timeout. rewrite Hst.
    apply Z.ltb_ge in Hz. rewrite Hz. reflexivity.
  - intros uuid rest val clock f1 f2 Hrem Hstale twice.
    set (s1 := set_state St.checkLastVisited
                 (set_vmuuid (Some uuid) (set_remaining rest (set_retries 3 s)))).
    destruct (retry_round cleanVM s1 val clock f1 eq_refl Hstale eq_refl)
      as (a1 & Hr1 & Hp1 & Hm1).
    set (s2 := set_state St.checkLastVisited _) in Hr1.
    destruct (retry_round cleanVM s2 val clock f2 eq_refl Hstale eq_refl)
      as (a2 & Hr2 & Hp2 & Hm2).
    set (s3 := set_state St.checkLastVisited _) in Hr2.
    assert (Htwice : run cleanVM s1 twice = (s3, a1 ++ a2)).
    { subst twice. rewrite app_assoc, run_app, Hr1. unfold andThen.
      rewrite Hr2. reflexivity. }
    assert (Hobs : ∀ more, observe cleanVM s (twice ++ more) =
       ((run cleanVM s3 more).1,
        [S_timeout 1000; redis_hget (vmkey_of uuid) "last_visit"] ++ a1 ++ a2
        ++ (run cleanVM s3 more).2)).
    { intros more. unfold observe. rewrite (state_next_cons _ _ _ Hrem).
      unfold andThen at 1. fold s1. rewrite run_app, Htwice. unfold andThen.
      destruct (run cleanVM s3 more). cbn [fst snd].
      rewrite <- !app_assoc. reflexivity. }
    split.
    + intros obj out. subst out. rewrite Hobs.
      rewrite (run_stale_unmarked cleanVM s3 val clock clock obj eq_refl Hstale).
      cbn [fst snd]. rewrite !List.filter_app, Hp1, Hp2, Hm1, Hm2.
      destruct (terminal _); repeat split.
    + intros f3 out. subst out. rewrite Hobs.
      destruct (last_round cleanVM s3 val clock f3 eq_refl Hstale)
        as (s4 & a3 & Hr3 & Hrem4 & Hp3 & Hm3); [done|].
      rewrite Hr3. cbn [fst snd].
      destruct (state_next_quiet s4) as (_ & Hp4 & Hm4).
      rewrite !List.filter_app, Hp1, Hp2, Hp3, Hp4, Hm1, Hm2, Hm3, Hm4.
      split; [reflexivity|]. split; [reflexivity|].
      pose proof (state_next_takes_head s4) as H. rewrite Hrem4 in H. exact H.
Qed.

Lemma retry_budget_witness :
  let s := set_remaining ["A"; "B"] init in
  let val := "1500000000" in
  let clock := 1600000000000 in
  let out := observe id s
               ((attempt val clock last_visit_timeout ++ [timer] ++
                 attempt val clock (fetch_error "InternalError" "boom") ++ [timer])
                ++ [hget_reply (inr (Some val)) clock;
                    hget_reply (inr None) clock;
                    get_reply (inr sample_destroyed) true]) in
  fsm_state out.1 = St.sleep ∧ vmuuid out.1 = Some "A" ∧
  List.filter is_push out.2 = [stream_push (fetched id sample_destroyed)].
Proof.
  intros s val clock out.
  destruct (retry_budget id s) as (_ & _ & _ & _ & H).
  assert (Hstale : stale s val clock)
    by (exists 1500000000; split; [reflexivity | vm_compute; reflexivity]).
  destruct (H "A" ["B"] val clock last_visit_timeout
              (fetch_error "InternalError" "boom") eq_refl Hstale) as [H1 _].
  destruct (H1 sample_destroyed) as (Hs & Hu & _ & _ & Hp & _).
  repeat split; assumption.
Defined.

(** C6, evaluated where the code departs from it: the visit to [A], a stale
    record marked [reaped] whose [last_recs] is not empty, meets an error of
    the [last_recs] read.  That failure does not pass through [checkError]:
    no retry is counted and no retry timer is armed, [A] is not read again,
    its record is deleted and the machine has [B] in hand. *)
Theorem last_recs_error_bypasses_retry :
  let st := sample_store_reaped in
  let s := set_remaining ["A"; "B"] init in
  let es := [hget_reply (inr (hget st "vm:A" "last_visit")) 1600000000000;
             hget_reply (inr (hget st "vm:A" "reaped")) 1600000000000;
             hget_reply (inl "ECONNRESET") 1600000000000] in
  let out := observe id s es in
  vmuuid (state_next s).1 = Some "A" ∧ retries (state_next s).1 = 3 ∧
  states_visited id (state_next s).1 es =
    [St.checkReaped St.reaped; St.checkReaped St.last_recs;
     St.checkLastVisited] ∧
  vmuuid out.1 = Some "B" ∧
  out.2 = [S_timeout 1000; redis_hget "vm:A" "last_visit";
           S_timeout 1000; redis_hget "vm:A" "reaped";
           redis_hget "vm:A" "last_recs"; redis_del "vm:A";
           S_timeout 1000; redis_hget "vm:B" "last_visit"] ∧
  exec_all st out.2 !! "vm:A" = None.
Proof. vm_compute. repeat split. Qed.

(** ** The staleness threshold setter *)

(** C7 as stated fails: half a second is not between one second and 24
    hours, and it is accepted. *)
Lemma setReapTime_accepts_half_second :
  setReapTime (JNumber (1 # 2)) init = Some (set_reapTime (1 # 2) init) ∧
  ¬ (1 <= 1 # 2)%Q.
Proof. split; [reflexivity | vm_compute; congruence]. Qed.

(** C7 as amended: [setReapTime] accepts exactly the numbers strictly
    between 0 and 24 * 3600 seconds and stores them as [reapTime]; every
    other value, numeric or not, makes it throw, and then nothing is
    stored.  In particular 24 hours itself is refused. *)
Theorem setReapTime_range (v : jsval) (s : ReaperFSM) :
  match setReapTime v s with
  | Some s' =>
      ∃ q, v = JNumber q ∧ (0 < q)%Q ∧ (q < 24 * 3600)%Q ∧
           s' = set_reapTime q s ∧ reapTime s' = q
  | None => ∀ q, v = JNumber q → ¬ ((0 < q)%Q ∧ (q < 24 * 3600)%Q)
  end ∧
  setReapTime (JNumber (24 * 3600)) s = None.
Proof.
  split; [|reflexivity].
  unfold setReapTime. destruct v; try (intros q' [=]).
  destruct (Qltb 0 q && Qltb q (24 * 3600)) eqn:E.
  - apply andb_true_iff in E as [H1%Qltb_lt H2%Qltb_lt]. exists q. done.
  - intros q' [= <-] [H1%Qltb_lt H2%Qltb_lt]. rewrite H1, H2 in E. done.
Qed.

Lemma setReapTime_range_witness :
  (∃ q, JNumber 7200 = JNumber q ∧ (0 < q)%Q ∧ (q < 24 * 3600)%Q ∧
        set_reapTime 7200 init = set_reapTime q init ∧
        reapTime (set_reapTime 7200 init) = q) ∧
  (∀ q, JNumber 0 = JNumber q → ¬ ((0 < q)%Q ∧ (q < 24 * 3600)%Q)).
Proof.
  split.
  - exact (proj1 (setReapTime_range (JNumber 7200) init)).
  - exact (proj1 (setReapTime_range (JNumber 0) init)).
Defined.

(** ** Listing the keys *)

Lemma step_page cleanVM (s : ReaperFSM) (cursor : string) (keys : list string) :
  fsm_state s = St.listVms → cursor ≠ "0" →
  step cleanVM s (scan_reply (inr (cursor, keys))) =
  state_listVms (set_remaining (remaining s ++ candidates keys)
                   (set_listCursor cursor s)).
Proof.
  intros Hst Hc%String.eqb_neq.
  unfold step, on_scan_reply, listVms_callback. rewrite Hst.
  cbn [listCursor set_listCursor set_remaining]. rewrite Hc. reflexivity.
Qed.

Lemma step_last_page cleanVM (s : ReaperFSM) (keys : list string) :
  fsm_state s = St.listVms →
  step cleanVM s (scan_reply (inr ("0", keys))) =
  state_next (set_remaining (remaining s ++ candidates keys)
                (set_listCursor "0" s)).
Proof. intros Hst. unfold step, on_scan_reply. rewrite Hst. reflexivity. Qed.

Lemma step_scan_failure cleanVM (s : ReaperFSM) (e : Event) (err : ReaperError) :
  fsm_state s = St.listVms → scan_failure e = Some err →
  step cleanVM s e =
  (set_listCursor "0" (set_state St.listError (set_lastError err s)),
   [S_timeout 1000]).
Proof.
  intros Hst He. destruct e as [| | |[?|?]| |]; try discriminate;
    injection He as <-; unfold step, on_timer, on_scan_reply; rewrite Hst;
    reflexivity.
Qed.

Lemma run_pages cleanVM (pages : list (string * list string)) (s : ReaperFSM) :
  fsm_state s = St.listVms → Forall (fun p => p.1 ≠ "0") pages →
  fsm_state (run cleanVM s (map page_reply pages)).1 = St.listVms ∧
  remaining (run cleanVM s (map page_reply pages)).1 = remaining s ++ ids pages.
Proof.
  revert s. induction pages as [|[c keys] pages IH]; intros s Hst Hp.
  - simpl. rewrite app_nil_r. done.
  - inversion Hp as [|? ? Hc Hp']; subst. cbn [fst] in Hc. cbn [map].
    rewrite run_cons_fst. unfold page_reply at 1 3.
    rewrite (step_page _ _ _ _ Hst Hc).
    destruct (IH (state_listVms (set_remaining (remaining s ++ candidates keys)
                                   (set_listCursor c s))).1 eq_refl Hp')
      as [-> ->].
    split; [reflexivity|]. unfold ids. simpl. rewrite app_assoc. reflexivity.
Qed.

Lemma count_twice (x : string) (front l1 l2 : list string) :
  In x l1 → In x l2 →
  (2 <= count_occ string_dec (front ++ l1 ++ l2) x)%nat.
Proof.
  intros H1 H2. rewrite !count_occ_app.
  apply (count_occ_In string_dec) in H1, H2. lia.
Qed.

Lemma run_app_fst cleanVM (es1 es2 : list Event) (s : ReaperFSM) :
  (run cleanVM s (es1 ++ es2)).1 =
  (run cleanVM (run cleanVM s es1).1 es2).1.
Proof. rewrite run_app. apply andThen_fst. Qed.

Lemma run_app_snd cleanVM (es1 es2 : list Event) (s : ReaperFSM) :
  (run cleanVM s (es1 ++ es2)).2 =
  (run cleanVM s es1).2 ++ (run cleanVM (run cleanVM s es1).1 es2).2.
Proof. rewrite run_app. apply andThen_snd. Qed.

Lemma states_visited_app cleanVM (es1 es2 : list Event) (s : ReaperFSM) :
  states_visited cleanVM s (es1 ++ es2) =
  states_visited cleanVM s es1 ++
  states_visited cleanVM (run cleanVM s es1).1 es2.
Proof.
  revert s. induction es1 as [|e es1 IH]; intros s; [reflexivity|].
  cbn [app states_visited]. rewrite IH, run_cons_fst. reflexivity.
Qed.

Lemma visit_states cleanVM (s : ReaperFSM) (val : string) (clock clock' : Z)
    (obj : VMObj) :
  fsm_state s = St.checkLastVisited → stale s val clock →
  states_visited cleanVM s [hget_reply (inr (Some val)) clock;
                            hget_reply (inr None) clock';
                            get_reply (inr obj) true] =
  [St.checkReaped St.reaped; St.fetchAndPush; St.sleep].
Proof.
  intros Hst Hstale. cbn [states_visited].
  rewrite step_last_visit_stale; [|exact Hst|exact Hstale].
  handlers. unfold fetch. enter. simpl. destruct (terminal _); reflexivity.
Qed.

Lemma scan_retry_walk cleanVM (s : ReaperFSM)
    (pages1 pages2 : list (string * list string)) (e : Event)
    (err : ReaperError) (keysLast : list string) :
  fsm_state s = St.listVms →
  Forall (fun p => p.1 ≠ "0") pages1 → Forall (fun p => p.1 ≠ "0") pages2 →
  scan_failure e = Some err →
  ∃ sW,
    (run cleanVM s (map page_reply pages1 ++ [e; timer] ++
                    map page_reply pages2 ++ [page_reply ("0", keysLast)])).1 =
    (state_next sW).1 ∧
    remaining sW =
    remaining s ++ ids pages1 ++ ids (pages2 ++ [("0", keysLast)]).
Proof.
  intros Hst Hp1 Hp2 He.
  destruct (run_pages cleanVM pages1 s Hst Hp1) as [Hst1 Hrem1].
  set (s1 := (run cleanVM s (map page_reply pages1)).1) in *.
  set (s2 := set_state St.listVms
               (set_listCursor "0" (set_state St.listError (set_lastError err s1)))).
  destruct (run_pages cleanVM pages2 s2 eq_refl Hp2) as [Hst3 Hrem3].
  set (s3 := (run cleanVM s2 (map page_reply pages2)).1) in *.
  exists (set_remaining (remaining s3 ++ candidates keysLast)
            (set_listCursor "0" s3)).
  split.
  - rewrite run_app_fst. fold s1. cbn [app].
    rewrite run_cons_fst, (step_scan_failure _ _ _ _ Hst1 He). cbn [fst].
    rewrite run_cons_fst. unfold step at 1, on_timer.
    cbn [fsm_state set_listCursor set_state]. unfold state_listVms. cbn [fst].
    fold s2. rewrite run_app_fst. fold s3.
    rewrite run_cons_fst. unfold page_reply. rewrite (step_last_page _ _ _ Hst3).
    reflexivity.
  - cbn [remaining set_remaining]. rewrite Hrem3. subst s2.
    cbn [remaining set_state set_listCursor set_lastError]. rewrite Hrem1.
    unfold ids. rewrite flat_map_app. simpl. rewrite app_nil_r, <- !app_assoc.
    reflexivity.
Qed.

Lemma rescan_processes_twice cleanVM (obj : VMObj) :
  let out := run cleanVM init (twice_listed obj true) in
  List.filter is_fetch out.2 = [client_get "/vms/A"; client_get "/vms/A"] ∧
  List.filter is_push out.2 =
    [stream_push (fetched cleanVM obj); stream_push (fetched cleanVM obj)] ∧
  never_idle cleanVM init (twice_listed obj true) = true.
Proof.
  set (scan := [start; scan_reply (inr ("17", ["vm:A"]));
                scan_reply (inl "ECONNRESET"); timer;
                scan_reply (inr ("0", ["vm:A"]))]).
  change (twice_listed obj true)
    with (scan ++
          [hget_reply (inr (Some "1500000000")) 1600000000000;
           hget_reply (inr None) 1600000000000; get_reply (inr obj) true] ++
          [timer] ++
          [hget_reply (inr (Some "1500000000")) 1600000001000;
           hget_reply (inr None) 1600000001000; get_reply (inr obj) true]).
  set (sA := set_state St.checkLastVisited
               (set_vmuuid (Some "A") (set_remaining ["A"]
                  (set_lastError (RedisError "ECONNRESET")
                     (set_onTimer true init))))).
  set (sB := set_state St.checkLastVisited
               (set_vmuuid (Some "A") (set_remaining [] sA))).
  assert (HA : (run cleanVM init scan).1 = sA) by reflexivity.
  assert (HaA : List.filter is_fetch (run cleanVM init scan).2 = [] ∧
                List.filter is_push (run cleanVM init scan).2 = [])
    by (split; reflexivity).
  assert (Hs1 : stale sA "1500000000" 1600000000000)
    by (exists 1500000000; split; [reflexivity | vm_compute; reflexivity]).
  assert (Hs2 : stale sB "1500000000" 1600000001000)
    by (exists 1500000000; split; [reflexivity | vm_compute; reflexivity]).
  assert (Hv1 := run_stale_unmarked cleanVM sA "1500000000" 1600000000000
                   1600000000000 obj eq_refl Hs1).
  assert (Hv2 := run_stale_unmarked cleanVM sB "1500000000" 1600000001000
                   1600000001000 obj eq_refl Hs2).
  assert (Ht : step cleanVM (set_state St.sleep sA) timer =
               (sB, [S_timeout 1000; redis_hget "vm:A" "last_visit"]))
    by reflexivity.
  intros out. subst out. split; [|split].
  - rewrite run_app_snd, HA, run_app_snd, Hv1. cbn [fst snd app].
    rewrite run_cons_snd, Ht. cbn [fst snd]. rewrite Hv2. cbn [snd].
    rewrite !List.filter_app, (proj1 HaA).
    destruct (terminal _); reflexivity.
  - rewrite run_app_snd, HA, run_app_snd, Hv1. cbn [fst snd app].
    rewrite run_cons_snd, Ht. cbn [fst snd]. rewrite Hv2. cbn [snd].
    rewrite !List.filter_app, (proj2 HaA).
    destruct (terminal _); reflexivity.
  - unfold never_idle. rewrite states_visited_app, HA, states_visited_app.
    rewrite (visit_states cleanVM sA _ _ 1600000000000 obj eq_refl Hs1).
    rewrite Hv1. cbn [fst]. rewrite (states_visited_app cleanVM [timer]).
    assert (Hr : (run cleanVM (set_state St.sleep sA) [timer]).1 = sB)
      by reflexivity.
    assert (Hsv : states_visited cleanVM (set_state St.sleep sA) [timer] =
                  [St.checkLastVisited]) by reflexivity.
    rewrite Hr, Hsv.
    rewrite (visit_states cleanVM sB _ _ 1600000001000 obj eq_refl Hs2).
    reflexivity.
Qed.

(** C10: a failed scan (timer or error reply) leaves the worklist as it is
    and puts the cursor back to the start.  When the scan that follows
    comes upon the ids already collected, each of them is on the worklist
    at least twice by the time [next] is entered; and in such a cycle one
    resource is fetched and pushed twice before the machine is [idle]
    again. *)
Theorem scan_retry_duplicates cleanVM (s : ReaperFSM) :
  fsm_state s = St.listVms →
  (∀ e err, scan_failure e = Some err →
     fsm_state (step cleanVM s e).1 = St.listError ∧
     remaining (step cleanVM s e).1 = remaining s ∧
     listCursor (step cleanVM s e).1 = "0" ∧
     step cleanVM (step cleanVM s e).1 timer =
       state_listVms (step cleanVM s e).1) ∧
  (∀ pages1 pages2 e err keysLast,
     Forall (fun p => p.1 ≠ "0") pages1 → Forall (fun p => p.1 ≠ "0") pages2 →
     scan_failure e = Some err →
     let es := map page_reply pages1 ++ [e; timer] ++
               map page_reply pages2 ++ [page_reply ("0", keysLast)] in
     ∃ sW, (run cleanVM s es).1 = (state_next sW).1 ∧
       remaining sW =
         remaining s ++ ids pages1 ++ ids (pages2 ++ [("0", keysLast)]) ∧
       ∀ id, In id (ids pages1) → In id (ids (pages2 ++ [("0", keysLast)])) →
             (2 <= count_occ string_dec (remaining sW) id)%nat) ∧
  (∀ obj,
     let out := run cleanVM init (twice_listed obj true) in
     List.filter is_fetch out.2 = [client_get "/vms/A"; client_get "/vms/A"] ∧
     List.filter is_push out.2 =
       [stream_push (fetched cleanVM obj); stream_push (fetched cleanVM obj)] ∧
     never_idle cleanVM init (twice_listed obj true) = true).
Proof.
  intros Hst. split; [|split].
  - intros e err He. rewrite (step_scan_failure _ _ _ _ Hst He). done.
  - intros pages1 pages2 e err keysLast Hp1 Hp2 He es.
    destruct (scan_retry_walk cleanVM s pages1 pages2 e err keysLast
                Hst Hp1 Hp2 He) as (sW & Hrun & Hrem).
    exists sW. split; [exact Hrun|]. split; [exact Hrem|].
    intros id H1 H2. rewrite Hrem. apply count_twice; assumption.
  - apply rescan_processes_twice.
Qed.

Lemma scan_retry_duplicates_witness :
  let s := set_state St.listVms init in
  remaining (step id s (scan_reply (inl "ECONNRESET"))).1 = [] ∧
  ∃ sW, (run id s (map page_reply [("17", ["vm:A"])] ++
                   [scan_reply (inl "ECONNRESET"); timer] ++
                   map page_reply [] ++ [page_reply ("0", ["vm:A"])])).1 =
        (state_next sW).1 ∧
        (2 <= count_occ string_dec (remaining sW) "A")%nat.
Proof.
  intros s.
  destruct (scan_retry_duplicates id s eq_refl) as (H1 & H2 & _).
  split.
  - apply (H1 (scan_reply (inl "ECONNRESET")) (RedisError "ECONNRESET") eq_refl).
  - destruct (H2 [("17", ["vm:A"])] [] (scan_reply (inl "ECONNRESET"))
                (RedisError "ECONNRESET") ["vm:A"]) as (sW & Hrun & _ & Hcount).
    + repeat constructor. discriminate.
    + constructor.
    + reflexivity.
    + exists sW. split; [exact Hrun|]. apply Hcount; simpl; auto.
Defined.

(** ** Exactness of the throttle arithmetic *)

Lemma step_sleep_listed cleanVM (s : ReaperFSM) (e : Event) :
  sleep_listed s → sleep_listed (step cleanVM s e).1.
Proof.
  intros (Hmin & Hmax & v & Hin & Hv).
  destruct (step_throttle cleanVM s e) as (Emin & Emax & Es).
  unfold sleep_listed. rewrite Emin, Emax, Es.
  split; [exact Hmin|]. split; [exact Hmax|].
  unfold throttle_after.
  destruct (is_full_expiry s e); [|destruct (is_sleep_wake s e)].
  - assert (H : (backoff s == Qmin (v * 2) 10000)%Q)
      by (rewrite backoff_min, Hv, Hmax; reflexivity).
    exists (Qred (Qmin (v * 2) 10000)). split; [|rewrite Qred_correct; exact H].
    simpl in Hin. clear -Hin.
    repeat (destruct Hin as [<-|Hin]; [vm_compute; pick_listed|]). done.
  - assert (H : (anneal s == Qmax (v / 2) 100)%Q)
      by (rewrite anneal_max, Hv, Hmin; reflexivity).
    exists (Qred (Qmax (v / 2) 100)). split; [|rewrite Qred_correct; exact H].
    simpl in Hin. clear -Hin.
    repeat (destruct Hin as [<-|Hin]; [vm_compute; pick_listed|]). done.
  - exists v. done.
Qed.

(** The throttle only takes finitely many values, each a multiple of 1/4
    below 2^53: binary floating point represents them, their doubles and
    their halves exactly, so the rational model loses nothing. *)
Lemma sleep_values_exact cleanVM (es : list Event) :
  ∃ n : Z, (sleep (run cleanVM init es).1 == n # 4)%Q ∧ 400 <= n <= 40000.
Proof.
  assert (H : sleep_listed (run cleanVM init es).1).
  { assert (H0 : sleep_listed init)
      by (split; [reflexivity|]; split; [reflexivity|];
          exists 100%Q; split; [left|]; reflexivity).
    revert H0. generalize init. induction es as [|e es IH]; intros s Hs.
    - exact Hs.
    - rewrite run_cons_fst. apply IH, step_sleep_listed, Hs. }
  destruct H as (_ & _ & v & Hin & Hv). exists (Qnum (Qred (v * 4))).
  rewrite Hv. clear Hv. simpl in Hin.
  repeat (destruct Hin as [<-|Hin];
          [vm_compute; split; [reflexivity | split; discriminate]|]).
  done.
Qed.

(** * Further properties of the machine *)

(** ** Keys and worklist ids *)

Lemma split_nonempty (c : ascii) (s : string) : split c s ≠ [].
Proof.
  destruct s as [|a rest]; simpl; [done|].
  destruct (Ascii.eqb a c); [done|]. destruct (split c rest); done.
Qed.

Lemma join_push (c a : ascii) (p : string) (ps : list string) :
  join c (String a p :: ps) = String a (join c (p :: ps)).
Proof. destruct ps; reflexivity. Qed.

(** Joining the pieces of [split] with the separator gives the string
    back. *)
Lemma join_split (c : ascii) (s : string) : join c (split c s) = s.
Proof.
  induction s as [|a rest IH]; [reflexivity|]. simpl.
  pose proof (split_nonempty c rest) as Hne.
  destruct (split c rest) as [|p ps] eqn:Hs; [done|].
  destruct (Ascii.eqb a c) eqn:E.
  - apply Ascii.eqb_eq in E as ->.
    change (join c ("" :: p :: ps)) with ("" +:+ String c (join c (p :: ps))).
    rewrite IH. reflexivity.
  - rewrite join_push, IH. reflexivity.
Qed.

Lemma split_parts (c : ascii) (s : string) :
  Forall (fun p => has_char c p = false) (split c s).
Proof.
  induction s as [|a rest IH]; simpl; [by repeat constructor|].
  destruct (Ascii.eqb a c) eqn:E; [by constructor|].
  destruct (split c rest) as [|p ps]; [by repeat constructor; simpl; rewrite E|].
  inversion IH; subst. constructor; [simpl; by rewrite E|assumption].
Qed.

Lemma split_plain (c : ascii) (s : string) :
  has_char c s = false → split c s = [s].
Proof.
  induction s as [|a rest IH]; [reflexivity|]. simpl.
  intros [Ha Hr]%orb_false_iff. rewrite Ha, (IH Hr). reflexivity.
Qed.

Lemma split_sep (c : ascii) (p rest : string) :
  has_char c p = false →
  split c (p +:+ String c rest) = p :: split c rest.
Proof.
  induction p as [|a p IH]; simpl.
  - intros _. rewrite Ascii.eqb_refl. reflexivity.
  - intros [Ha Hr]%orb_false_iff. rewrite Ha, (IH Hr). reflexivity.
Qed.

Lemma split_two (c : ascii) (key p0 p1 : string) :
  split c key = [p0; p1] ↔
  key = p0 +:+ String c p1 ∧ has_char c p0 = false ∧ has_char c p1 = false.
Proof.
  split.
  - intros H. pose proof (join_split c key) as Hj.
    pose proof (split_parts c key) as Hp. rewrite H in Hj, Hp.
    inversion Hp as [|? ? H0 Hp']; subst. inversion Hp'; subst. done.
  - intros (-> & H0 & H1). rewrite (split_sep c p0 p1 H0), (split_plain c p1 H1).
    reflexivity.
Qed.

Lemma candidates_cons (key : string) (keys : list string) :
  candidates (key :: keys) = candidates [key] ++ candidates keys.
Proof. unfold candidates. simpl. rewrite app_nil_r. reflexivity. Qed.

Lemma candidates_key (key id : string) :
  In id (candidates [key]) ↔ key = vmkey_of id ∧ has_char ":" id = false.
Proof.
  unfold candidates. simpl. rewrite app_nil_r.
  destruct (split ":" key) as [|p0 [|p1 [|p2 ps]]] eqn:Hs; simpl.
  - split; [done|]. intros [-> Hid]. by apply split_nonempty in Hs.
  - split; [done|]. intros [-> Hid].
    assert (H : split ":" (vmkey_of id) = ["vm"; id])
      by (apply split_two; done).
    rewrite H in Hs. discriminate.
  - destruct (String.eqb p0 "vm") eqn:E.
    + apply String.eqb_eq in E as ->. apply split_two in Hs as (-> & _ & H1).
      simpl. split.
      * intros [<-|[]]. done.
      * intros [[= ->] _]. by left.
    + split; [done|]. intros [-> Hid].
      assert (H : split ":" (vmkey_of id) = ["vm"; id])
        by (apply split_two; done).
      rewrite H in Hs. injection Hs as <- <-. discriminate.
  - split; [done|]. intros [-> Hid].
    assert (H : split ":" (vmkey_of id) = ["vm"; id])
      by (apply split_two; done).
    rewrite H in Hs. discriminate.
Qed.

(** X1: an id is put on the worklist exactly when the page holds the key
    [vm:id] and the id has no colon of its own: keys of another prefix, bare
    keys and keys with a second colon are dropped. *)
Theorem worklist_ids_are_vm_keys (keys : list string) (id : string) :
  In id (candidates keys) ↔
  In (vmkey_of id) keys ∧ has_char ":" id = false.
Proof.
  induction keys as [|key keys IH].
  - simpl. tauto.
  - rewrite candidates_cons, in_app_iff, candidates_key, IH. simpl. split.
    + intros [[-> H]|[H1 H2]]; auto.
    + intros [[->|H1] H2]; auto.
Qed.

(** X2: scanning the keys that the machine itself forms for a list of ids
    gives the ids back, in order and with repetitions, provided no id holds
    a colon. *)
Theorem candidates_of_vmkeys (uuids : list string) :
  Forall (fun id => has_char ":" id = false) uuids →
  candidates (map vmkey_of uuids) = uuids.
Proof.
  induction 1 as [|id uuids Hid _ IH]; [reflexivity|].
  cbn [map]. rewrite candidates_cons, IH. f_equal.
  assert (H : split ":" (vmkey_of id) = ["vm"; id]) by (apply split_two; done).
  unfold candidates. cbn [flat_map]. rewrite H. reflexivity.
Qed.

Lemma candidates_of_vmkeys_witness :
  candidates (map vmkey_of ["a1b2"; "c3"]) = ["a1b2"; "c3"].
Proof. apply candidates_of_vmkeys. repeat constructor. Defined.

(** ** What the machine issues *)

Lemma run_action_step cleanVM (a : Action) (es : list Event) (s : ReaperFSM) :
  In a (run cleanVM s es).2 →
  ∃ s' e, In e es ∧ In a (step cleanVM s' e).2.
Proof.
  revert s. induction es as [|e es IH]; intros s; [done|].
  rewrite run_cons_snd, in_app_iff. intros [H|H].
  - exists s, e. split; [by left | exact H].
  - destruct (IH _ H) as (s' & e' & Hin & Ha). exists s', e'.
    split; [by right | exact Ha].
Qed.

Ltac by_cases s :=
  let Hst := fresh "Hst" in
  destruct (fsm_state s) as [| | | |[]| | | |] eqn:Hst;
  match goal with
  | e : Event |- _ =>
      destruct e as [| | |[?|[? ?]]|[?|[?|]] ?|[[? ?]|?] ?]
  end;
  handlers; unfold fetch; cbn [fsm_state set_onTimer]; rewrite ?Hst;
  repeat case_match.

Ltac entries :=
  unfold state_listVms, state_listError, state_checkLastVisited,
    state_checkReaped, state_fetchAndPush, state_sleep_full, state_sleep,
    state_checkError, emit.

Lemma state_next_actions (s : ReaperFSM) :
  (state_next s).2 =
  match remaining s with
  | uuid :: _ => [S_timeout 1000; redis_hget (vmkey_of uuid) "last_visit"]
  | [] => if onTimer s then [S_timeout (reapTime s * 1000)] else []
  end.
Proof. enter. simpl. destruct (remaining s); reflexivity. Qed.

Ltac explicit_actions :=
  rewrite ?andThen_snd; entries; cbn [fst snd];
  repeat case_match; rewrite ?andThen_snd; cbn [fst snd];
  rewrite ?state_next_actions;
  cbn [remaining onTimer set_sleep set_retries set_state set_lastError
       set_listCursor set_remaining set_onTimer];
  repeat case_match; cbn [app].

Lemma step_well_formed cleanVM (s : ReaperFSM) (e : Event) :
  Forall well_formed_action (step cleanVM s e).2.
Proof.
  by_cases s; explicit_actions;
    repeat match goal with
           | |- Forall _ (_ :: _) => constructor
           | |- Forall _ [] => constructor
           end;
    simpl;
    first [ exact I | left; reflexivity | right; left; reflexivity
          | right; right; reflexivity | split; reflexivity
          | apply lookup_insert_eq ].
Qed.

(** X3: whatever events arrive, the machine reads no field but
    [last_visit], [reaped] and [last_recs], writes nothing but [reaped] =
    [yes], and pushes only objects tagged with origin [reaper]. *)
Theorem commands_well_formed cleanVM (s : ReaperFSM) (es : list Event) :
  Forall well_formed_action (run cleanVM s es).2.
Proof.
  revert s. induction es as [|e es IH]; intros s; [constructor|].
  rewrite run_cons_snd. apply Forall_app. split; [apply step_well_formed|apply IH].
Qed.

Lemma step_push cleanVM (s : ReaperFSM) (e : Event) (obj : VMObj) :
  In (stream_push obj) (step cleanVM s e).2 →
  fsm_state s = St.fetchAndPush ∧
  ∃ raw accepted, e = get_reply (inr raw) accepted ∧ obj = fetched cleanVM raw.
Proof.
  by_cases s; explicit_actions; simpl; intros Hin;
    repeat (destruct Hin as [Hin|Hin]; try discriminate); try done;
    injection Hin as <-; (split; [reflexivity | eauto]).
Qed.

(** X4: every object pushed during a run is the cleaned and tagged form of
    an object that a VMAPI reply of that run delivered. *)
Theorem pushes_are_fetched cleanVM (s : ReaperFSM) (es : list Event)
    (obj : VMObj) :
  In (stream_push obj) (run cleanVM s es).2 →
  ∃ raw accepted,
    In (get_reply (inr raw) accepted) es ∧ obj = fetched cleanVM raw.
Proof.
  intros (s' & e & Hin & Ha)%run_action_step.
  apply step_push in Ha as (_ & raw & accepted & -> & ->). eauto.
Qed.

Lemma pushes_are_fetched_witness :
  ∃ raw accepted,
    In (get_reply (inr raw) accepted)
       (twice_paged sample_running true) ∧
    fetched id sample_running = fetched id raw.
Proof.
  apply (pushes_are_fetched id init (twice_paged sample_running true)).
  vm_compute. tauto.
Defined.

Lemma step_del cleanVM (s : ReaperFSM) (e : Event) (key : string) :
  In (redis_del key) (step cleanVM s e).2 →
  fsm_state s = St.checkReaped St.last_recs ∧ key = vmkey s ∧
  ∃ r clock, e = hget_reply r clock ∧
    (r = inr None ∨ r = inr (Some "{}") ∨ ∃ err, r = inl err).
Proof.
  by_cases s; explicit_actions; simpl; intros Hin;
    repeat (destruct Hin as [Hin|Hin]; try discriminate); try done;
    injection Hin as <-; (split; [reflexivity|]); (split; [reflexivity|]);
    eexists _, _; (split; [reflexivity|]);
    try match goal with
        | H : String.eqb _ _ = true |- _ => apply String.eqb_eq in H; subst
        end;
    eauto.
Qed.

Lemma state_next_state (s : ReaperFSM) :
  fsm_state (state_next s).1 =
  match remaining s with [] => St.idle | _ :: _ => St.checkLastVisited end.
Proof. enter. simpl. destruct (remaining s); reflexivity. Qed.

Ltac explicit_state :=
  rewrite ?andThen_fst; entries; cbn [fst snd];
  repeat case_match; rewrite ?andThen_fst; cbn [fst snd];
  rewrite ?state_next_state;
  cbn [fsm_state remaining set_sleep set_retries set_state set_lastError
       set_listCursor set_remaining set_onTimer];
  repeat case_match.

Lemma enters_last_recs cleanVM (s : ReaperFSM) (e : Event) :
  fsm_state (step cleanVM s e).1 = St.checkReaped St.last_recs →
  fsm_state s = St.checkReaped St.last_recs ∨
  (fsm_state s = St.checkReaped St.reaped ∧
   ∃ v clock, e = hget_reply (inr (Some v)) clock).
Proof.
  by_cases s; explicit_state; intros Hnew;
    try discriminate; try congruence; eauto.
Qed.

(** X5: a delete is issued only by the [last_recs] callback of
    [checkReaped], for the key of the resource in hand, on a reply that is
    absent, [{}] or an error; and the machine comes to wait for [last_recs]
    only through a [reaped] reply that carried a value.  So no record is
    deleted unless its [reaped] marker has just been read as set. *)
Theorem deletes_only_marked cleanVM (s : ReaperFSM) (e : Event) :
  (∀ key, In (redis_del key) (step cleanVM s e).2 →
     fsm_state s = St.checkReaped St.last_recs ∧ key = vmkey s ∧
     ∃ r clock, e = hget_reply r clock ∧
       (r = inr None ∨ r = inr (Some "{}") ∨ ∃ err, r = inl err)) ∧
  (fsm_state (step cleanVM s e).1 = St.checkReaped St.last_recs →
   fsm_state s ≠ St.checkReaped St.last_recs →
   fsm_state s = St.checkReaped St.reaped ∧
   ∃ v clock, e = hget_reply (inr (Some v)) clock).
Proof.
  split.
  - intros key. apply step_del.
  - intros H Hne. destruct (enters_last_recs cleanVM s e H) as [?|?]; done.
Qed.

Lemma unhandled_step cleanVM (s : ReaperFSM) (e : Event) :
  handled s e = false →
  step cleanVM s e =
  (match e with start => set_onTimer true s | _ => s end, []).
Proof.
  unfold handled.
  destruct (fsm_state s) as [| | | |[]| | | |] eqn:Hst; destruct e;
    handlers; cbn [fsm_state set_onTimer]; rewrite ?Hst;
    intros Hh; try discriminate; try reflexivity.
  rewrite Hh. reflexivity.
Qed.

(** X6: an event for which the current state has no live handler (a late
    or stray reply, a wake outside the two sleep states, a start while a
    cycle runs) issues nothing and changes nothing, except that [start]
    records the timer mode.  So [_read] leaves a scan, a check or a fetch in
    progress alone. *)
Theorem unhandled_event_is_noop cleanVM (s : ReaperFSM) :
  (∀ e, handled s e = false →
     step cleanVM s e =
     (match e with start => set_onTimer true s | _ => s end, [])) ∧
  (handled s start = false → handled s wake = false →
   run cleanVM s _read = (set_onTimer true s, [])).
Proof.
  split; [intros e; apply unhandled_step|]. intros Hs Hw. unfold _read.
  rewrite run_cons, (unhandled_step cleanVM s start Hs). unfold andThen.
  rewrite run_cons, (unhandled_step cleanVM _ wake); [reflexivity|].
  unfold handled in *. cbn [fsm_state set_onTimer]. exact Hw.
Qed.

Lemma unhandled_event_is_noop_witness :
  let s := set_state St.fetchAndPush (set_vmuuid (Some "A") init) in
  step id s wake = (s, []) ∧ run id s _read = (set_onTimer true s, []).
Proof.
  intros s. destruct (unhandled_event_is_noop id s) as [H1 H2].
  split; [apply (H1 wake); reflexivity | apply H2; reflexivity].
Defined.

Lemma idle_unstarted cleanVM (s : ReaperFSM) (e : Event) :
  fsm_state s = St.idle → onTimer s = false → e ≠ start →
  step cleanVM s e = (s, []).
Proof.
  intros Hst Ht He. destruct e; try done; handlers; rewrite Hst, ?Ht;
    reflexivity.
Qed.

(** X7: a machine that is idle with the timer mode off stays exactly as it
    is, and issues nothing, until [start] is called: neither wakes nor timers
    nor replies set it off.  The constructor leaves it in that state. *)
Theorem inert_until_started cleanVM (s : ReaperFSM) (es : list Event) :
  fsm_state s = St.idle → onTimer s = false →
  Forall (fun e => e ≠ start) es →
  run cleanVM s es = (s, []) ∧
  fsm_state init = St.idle ∧ onTimer init = false.
Proof.
  intros Hst Ht Hes. split; [|done].
  induction Hes as [|e es He _ IH]; [reflexivity|].
  rewrite run_cons, (idle_unstarted cleanVM s e Hst Ht He). unfold andThen.
  rewrite IH. reflexivity.
Qed.

Lemma inert_until_started_witness :
  run id init [wake; timer; scan_reply (inr ("0", ["vm:A"]));
               hget_reply (inr None) 0] = (init, []).
Proof.
  apply (inert_until_started id init); [reflexivity | reflexivity |].
  repeat constructor; discriminate.
Defined.

(** ** Invariants of the walk *)

Lemma state_next_retries (s : ReaperFSM) : retries (state_next s).1 = 3.
Proof. enter. simpl. destruct (remaining s); reflexivity. Qed.

Lemma state_next_remaining (s : ReaperFSM) :
  remaining (state_next s).1 = tail (remaining s).
Proof.
  enter. simpl. destruct (remaining s) eqn:E; simpl; rewrite ?E; reflexivity.
Qed.

Lemma state_next_vmuuid (s : ReaperFSM) :
  vmuuid (state_next s).1 =
  match remaining s with uuid :: _ => Some uuid | [] => vmuuid s end.
Proof.
  enter. simpl. destruct (remaining s) eqn:E; simpl; rewrite ?E; reflexivity.
Qed.

Lemma state_next_listCursor (s : ReaperFSM) :
  listCursor (state_next s).1 =
  match remaining s with [] => "0" | _ :: _ => listCursor s end.
Proof.
  enter. simpl. destruct (remaining s) eqn:E; simpl; rewrite ?E; reflexivity.
Qed.

Lemma state_next_keeps (s : ReaperFSM) :
  lastError (state_next s).1 = lastError s ∧
  onTimer (state_next s).1 = onTimer s ∧
  reapTime (state_next s).1 = reapTime s.
Proof. enter. simpl. destruct (remaining s); done. Qed.

Ltac explicit_fields :=
  rewrite ?andThen_fst, ?andThen_snd; entries; cbn [fst snd];
  repeat case_match; rewrite ?andThen_fst, ?andThen_snd; cbn [fst snd];
  rewrite ?state_next_state, ?state_next_retries, ?state_next_remaining,
    ?state_next_vmuuid, ?state_next_listCursor, ?state_next_actions,
    ?(fun s => proj1 (state_next_keeps s)),
    ?(fun s => proj1 (proj2 (state_next_keeps s))),
    ?(fun s => proj2 (proj2 (state_next_keeps s)));
  cbn [fsm_state remaining vmuuid lastError retries onTimer reapTime
       listCursor set_sleep set_retries set_state set_lastError
       set_listCursor set_remaining set_onTimer set_vmuuid];
  repeat case_match; cbn [app tail].

Lemma step_retries_ok cleanVM (s : ReaperFSM) (e : Event) :
  retries_ok s → retries_ok (step cleanVM s e).1.
Proof.
  unfold retries_ok. intros [Hb Hc].
  by_cases s; explicit_fields;
    repeat match goal with
           | H : (0 <? _) = true |- _ => apply Z.ltb_lt in H
           | H : (0 <? _) = false |- _ => apply Z.ltb_ge in H
           end;
    try specialize (Hc ltac:(congruence));
    (split; [lia | intros ?; try lia; congruence]).
Qed.

Lemma run_invariant cleanVM (P : ReaperFSM → Prop) :
  (∀ s e, P s → P (step cleanVM s e).1) →
  ∀ es s, P s → P (run cleanVM s es).1.
Proof.
  intros Hstep es. induction es as [|e es IH]; intros s Hs; [exact Hs|].
  rewrite run_cons_fst. apply IH, Hstep, Hs.
Qed.

(** X8: from the constructor on, and along every run that starts within
    these bounds, the retry counter stays between 0 and 3 and is at least 1
    whenever the machine is not in [checkError]: it never goes negative and
    a check or a fetch is never started without budget. *)
Theorem retries_within_budget cleanVM (s : ReaperFSM) (es : list Event) :
  retries_ok s → retries_ok (run cleanVM s es).1 ∧ retries_ok init.
Proof.
  intros Hs. split.
  - apply run_invariant; [apply step_retries_ok | exact Hs].
  - split; [simpl; lia | intros _; simpl; lia].
Qed.

Lemma retries_within_budget_witness :
  retries_ok (run id init (twice_listed sample_running false)).1.
Proof.
  apply (retries_within_budget id init).
  split; [simpl; lia | intros _; simpl; lia].
Defined.
Ltac case_inner :=
  match goal with
  | |- context [match ?x with _ => _ end] =>
      lazymatch x with
      | context [match _ with _ => _ end] => fail
      | _ => destruct x eqn:?
      end
  end.

Ltac fields :=
  cbn [fst snd fsm_state remaining vmuuid lastError retries onTimer reapTime
       listCursor sleep minSleep maxSleep set_sleep set_retries set_state
       set_lastError set_listCursor set_remaining set_onTimer set_vmuuid
       set_reapTime app tail].

Ltac next_fields :=
  rewrite ?andThen_fst, ?andThen_snd,
    ?state_next_state, ?state_next_retries, ?state_next_remaining,
    ?state_next_vmuuid, ?state_next_listCursor, ?state_next_actions,
    ?(fun s => proj1 (state_next_keeps s)),
    ?(fun s => proj1 (proj2 (state_next_keeps s))),
    ?(fun s => proj2 (proj2 (state_next_keeps s))).

Ltac explicit :=
  entries; repeat first [progress next_fields | progress fields | case_inner].

Ltac arith_cases :=
  repeat match goal with
         | H : (0 <? _) = true |- _ => apply Z.ltb_lt in H
         | H : (0 <? _) = false |- _ => apply Z.ltb_ge in H
         | H : _ ++ _ = _ |- _ =>
             apply (f_equal (@length string)) in H; rewrite length_app in H
         end;
  cbn [length List.filter is_fetch is_push] in *; rewrite ?length_app.






Lemma step_pushes cleanVM (s : ReaperFSM) (e : Event) :
  count is_push (step cleanVM s e).2 + fetching (step cleanVM s e).1 <=
  count is_fetch (step cleanVM s e).2 + fetching s.
Proof.
  unfold count.
  by_cases s; unfold fetching; cbn [fst snd]; rewrite ?Hst; explicit;
    arith_cases; try congruence; lia.
Qed.

(** X10: the machine pushes at most one object per request it made: in any
    run the number of pushes is at most the number of VMAPI requests, plus
    one if the run starts while a request is outstanding. *)
Theorem pushes_at_most_fetches cleanVM (s : ReaperFSM) (es : list Event) :
  count is_push (run cleanVM s es).2 <=
  count is_fetch (run cleanVM s es).2 + fetching s.
Proof.
  enough (count is_push (run cleanVM s es).2 + fetching (run cleanVM s es).1
          <= count is_fetch (run cleanVM s es).2 + fetching s) as H.
  { assert (0 <= fetching (run cleanVM s es).1)
      by (unfold fetching; case_match; lia). lia. }
  revert s. induction es as [|e es IH]; intros s.
  - simpl. unfold count. simpl. lia.
  - rewrite run_cons_fst, run_cons_snd.
    pose proof (step_pushes cleanVM s e) as H1.
    pose proof (IH (step cleanVM s e).1) as H2.
    unfold count in *. rewrite !List.filter_app, !length_app. lia.
Qed.

Lemma step_hset cleanVM (s : ReaperFSM) (e : Event) (key field value : string) :
  In (redis_hset key field value) (step cleanVM s e).2 →
  fsm_state s = St.fetchAndPush ∧ key = vmkey s ∧
  ∃ raw, e = get_reply (inr raw) true ∧
         terminal (fetched cleanVM raw) = true ∧
         In (stream_push (fetched cleanVM raw)) (step cleanVM s e).2.
Proof.
  by_cases s; explicit_actions; simpl; intros Hin;
    repeat (destruct Hin as [Hin|Hin]; try discriminate); try done;
    injection Hin as <- <- <-;
    match goal with
    | H : negb ?b = false |- _ => destruct b; [clear H | discriminate H]
    end;
    (split; [reflexivity|]); (split; [reflexivity|]);
    eexists; (split; [reflexivity|]); split; [assumption | left; reflexivity].
Qed.

(** X11: the [reaped] marker is written only for the resource being
    visited, only when VMAPI answered with an object in a terminal state,
    and only in the step that pushed that object and saw the sink accept
    it. *)
Theorem marker_only_after_accepted_push cleanVM (s : ReaperFSM)
    (es : list Event) (key field value : string) :
  In (redis_hset key field value) (run cleanVM s es).2 →
  ∃ raw, In (get_reply (inr raw) true) es ∧
         terminal (fetched cleanVM raw) = true ∧
         In (stream_push (fetched cleanVM raw)) (run cleanVM s es).2.
Proof.
  revert s. induction es as [|e es IH]; intros s; [intros []|].
  rewrite run_cons_snd. intros [Hin|Hin]%in_app_or.
  - apply step_hset in Hin as (_ & _ & raw & -> & Ht & Hp).
    exists raw. split; [left; reflexivity|]. split; [exact Ht|].
    apply in_or_app. left. exact Hp.
  - destruct (IH _ Hin) as (raw & He & Ht & Hp).
    exists raw. split; [right; exact He|]. split; [exact Ht|].
    apply in_or_app. right. exact Hp.
Qed.

Lemma marker_only_after_accepted_push_witness :
  ∃ raw, In (get_reply (inr raw) true) (twice_listed sample_destroyed true) ∧
         terminal (fetched id raw) = true ∧
         In (stream_push (fetched id raw))
            (run id init (twice_listed sample_destroyed true)).2.
Proof.
  apply (marker_only_after_accepted_push id init
           (twice_listed sample_destroyed true)
           (vmkey_of "A") "reaped" "yes").
  vm_compute. tauto.
Defined.
Lemma step_scan_ok cleanVM (s : ReaperFSM) (e : Event) :
  scan_ok s → scan_ok (step cleanVM s e).1.
Proof.
  unfold scan_ok. intros [Hi Hc].
  by_cases s; cbn [fst snd]; rewrite ?Hst; explicit;
    try specialize (Hi ltac:(congruence));
    try specialize (Hc ltac:(congruence));
    repeat match goal with
           | H : String.eqb _ _ = true |- _ => apply String.eqb_eq in H
           end;
    (split; intros ?; try congruence; try done).
Qed.

Lemma idle_step cleanVM (s : ReaperFSM) (e : Event) :
  fsm_state s = St.idle → handled s e = true →
  (step cleanVM s e).2 = [S_timeout 10000; redis_scan (listCursor s)] ∧
  fsm_state (step cleanVM s e).1 = St.listVms ∧
  remaining (step cleanVM s e).1 = remaining s.
Proof.
  unfold handled. intros Hst. rewrite Hst.
  destruct e; try discriminate; intros He; handlers;
    cbn [fsm_state set_onTimer]; rewrite ?Hst, ?He; done.
Qed.

(** X12: every reaping cycle starts from scratch.  Along any run from the
    constructor's state (or from any state with these properties) the
    worklist is empty whenever the machine is idle and the scan cursor is
    0 outside [listVms]; so the event that takes the machine out of [idle]
    always issues a scan from cursor 0 with a ten-second timer and an empty
    worklist. *)
Theorem cycle_starts_from_scratch cleanVM (s : ReaperFSM) (es : list Event)
    (e : Event) :
  scan_ok s →
  let s' := (run cleanVM s es).1 in
  scan_ok s' ∧
  (fsm_state s' = St.idle → handled s' e = true →
   (step cleanVM s' e).2 = [S_timeout 10000; redis_scan "0"] ∧
   fsm_state (step cleanVM s' e).1 = St.listVms ∧
   remaining (step cleanVM s' e).1 = []).
Proof.
  intros Hs s'.
  assert (scan_ok s') as Hs'
    by (apply run_invariant; [apply step_scan_ok | exact Hs]).
  split; [exact Hs'|]. intros Hst He.
  destruct (idle_step cleanVM s' e Hst He) as (-> & -> & ->).
  destruct Hs' as [Hi Hc].
  rewrite (Hc ltac:(congruence)), (Hi Hst). done.
Qed.

Lemma cycle_starts_from_scratch_witness :
  let s' := (run id init [start; page_reply ("0", ["vm:A"]);
                          hget_reply (inr None) 0]).1 in
  scan_ok s' ∧
  (fsm_state s' = St.idle → handled s' timer = true →
   (step id s' timer).2 = [S_timeout 10000; redis_scan "0"] ∧
   fsm_state (step id s' timer).1 = St.listVms ∧
   remaining (step id s' timer).1 = []).
Proof.
  apply (cycle_starts_from_scratch id init).
  split; [reflexivity | intros _; reflexivity].
Defined.

Example cycle_ends_idle :
  fsm_state (run id init [start; page_reply ("0", ["vm:A"]);
                          hget_reply (inr None) 0]).1 = St.idle.
Proof. reflexivity. Qed.

Ltac membership :=
  repeat match goal with
         | H : ?a ++ ?b = ?c |- _ =>
             assert (∀ x, In x c ↔ In x a ∨ In x b)
               by (intros; rewrite <- H, in_app_iff; reflexivity);
             clear H
         | H : remaining ?s = _, Hr : incl (remaining ?s) _ |- _ =>
             rewrite H in Hr
         end;
  unfold incl in *; cbn [walking addressed about In] in *;
  repeat match goal with
         | |- Forall _ (_ :: _) => constructor
         | |- Forall _ [] => constructor
         | |- _ ∧ _ => split
         | |- false = true → _ => intros ?; discriminate
         | |- true = true → _ => intros _
         | |- ∀ _, _ => intros ?
         | |- _ → _ => intros ?
         | |- ∃ _, Some ?u = Some _ ∧ _ => exists u
         | |- ∃ _, _ ∧ _ = vmkey_of ?u => exists u
         | |- ∃ _, _ ∧ _ = _ +:+ ?u => exists u
         | |- ∃ _, ?v = Some _ ∧ _ =>
             match goal with H : v = Some ?u |- _ => exists u end
         | |- _ = _ => first [reflexivity | assumption]
         | H : False |- _ => destruct H
         | H : addressed _ = true |- _ =>
             cbn [addressed] in H; first [discriminate H | clear H]
         end;
  repeat match goal with
         | H : context [In _ (_ ++ _)] |- _ => setoid_rewrite in_app_iff in H
         end;
  rewrite ?in_app_iff; cbn [In] in *.

Lemma step_holds cleanVM (known : list string) (s : ReaperFSM) (e : Event) :
  holds known s →
  holds (known ++ scanned s e) (step cleanVM s e).1 ∧
  Forall (fun a => addressed a = true →
                   ∃ u, In u (known ++ scanned s e) ∧ about u a)
         (step cleanVM s e).2.
Proof.
  unfold holds, scanned, vmkey, uuid_text. intros [Hr Hw].
  by_cases s; cbn [fst snd]; rewrite ?Hst; cbn [walking] in Hw;
    try (destruct (Hw eq_refl) as (u & Hu & Hk); clear Hw);
    explicit; unfold vmkey, uuid_text; fields;
    rewrite ?app_nil_r, ?Hst, ?Hu;
    membership; try tauto; cbn [about]; eauto 6;
    try match goal with
        | H0 : ∀ x, _ ↔ _ |- In ?a _ ∨ _ =>
            destruct (proj1 (H0 a)) as [?|?]; auto
        | |- ∃ u, _ ∧ vmkey_of ?v = vmkey_of u =>
            exists v; split; [rewrite in_app_iff|reflexivity];
            match goal with
            | H0 : ∀ x, _ ↔ _ |- _ => destruct (proj1 (H0 v)) as [?|?]; auto
            end
        | H0 : In _ _ ∨ In _ _ |- _ => destruct H0; auto
        end.
Qed.

Lemma run_holds cleanVM (es : list Event) (known : list string)
    (s : ReaperFSM) :
  holds known s →
  Forall (fun a => addressed a = true →
                   ∃ u, In u (known ++ listed cleanVM s es) ∧ about u a)
         (run cleanVM s es).2.
Proof.
  revert known s. induction es as [|e es IH]; intros known s Hs;
    [constructor|].
  rewrite run_cons_snd. cbn [listed].
  destruct (step_holds cleanVM known s e Hs) as [Hs' Ha].
  apply Forall_app. split.
  - eapply Forall_impl; [exact Ha|]. cbn beta.
    intros a Hu Hadd. destruct (Hu Hadd) as (u & Hin & Hab).
    exists u. split; [|exact Hab].
    rewrite app_assoc. apply in_or_app. left. exact Hin.
  - specialize (IH _ _ Hs'). rewrite <- app_assoc in IH. exact IH.
Qed.

(** X13: the machine touches only what a scan listed.  In a run that
    starts outside the walk with an empty worklist, as from the
    constructor's state, every Redis read, write and delete and every VMAPI
    request is about an id that a scan page of this run put on the
    worklist. *)
Theorem commands_about_listed_ids cleanVM (s : ReaperFSM) (es : list Event)
    (a : Action) :
  walking (fsm_state s) = false → remaining s = [] →
  In a (run cleanVM s es).2 → addressed a = true →
  ∃ u, In u (listed cleanVM s es) ∧ about u a.
Proof.
  intros Hw Hr Hin Hadd.
  assert (holds [] s) as Hs.
  { split; [rewrite Hr; intros ? []|]. rewrite Hw. discriminate. }
  pose proof (run_holds cleanVM es [] s Hs) as H.
  rewrite List.Forall_forall in H. exact (H a Hin Hadd).
Qed.

Lemma commands_about_listed_ids_witness :
  ∃ u, In u (listed id init (twice_paged sample_destroyed true)) ∧
       about u (redis_hset (vmkey_of "A") "reaped" "yes").
Proof.
  apply (commands_about_listed_ids id init
           (twice_paged sample_destroyed true)); [reflexivity | reflexivity | | reflexivity].
  vm_compute. tauto.
Defined.
Lemma state_next_sleeps (s : ReaperFSM) :
  minSleep (state_next s).1 = minSleep s ∧
  maxSleep (state_next s).1 = maxSleep s ∧
  sleep (state_next s).1 = sleep s.
Proof. enter. simpl. destruct (remaining s); done. Qed.

Ltac next_sleeps :=
  rewrite ?andThen_fst,
    ?(fun s => proj1 (state_next_sleeps s)),
    ?(fun s => proj1 (proj2 (state_next_sleeps s))),
    ?(fun s => proj2 (proj2 (state_next_sleeps s))).

Lemma step_settings cleanVM (s : ReaperFSM) (e : Event) :
  reapTime (step cleanVM s e).1 = reapTime s ∧
  minSleep (step cleanVM s e).1 = minSleep s ∧
  maxSleep (step cleanVM s e).1 = maxSleep s ∧
  (onTimer s = true → onTimer (step cleanVM s e).1 = true).
Proof.
  by_cases s; next_sleeps; explicit; done.
Qed.

(** X14: the machine never alters its own settings.  Whatever events
    arrive, [reapTime], [minSleep] and [maxSleep] keep their values, and
    once [start] has set [onTimer] it stays set. *)
Theorem settings_survive cleanVM (s : ReaperFSM) (es : list Event) :
  reapTime (run cleanVM s es).1 = reapTime s ∧
  minSleep (run cleanVM s es).1 = minSleep s ∧
  maxSleep (run cleanVM s es).1 = maxSleep s ∧
  (onTimer s = true → onTimer (run cleanVM s es).1 = true).
Proof.
  revert s. induction es as [|e es IH]; intros s; [done|].
  rewrite run_cons_fst.
  destruct (IH (step cleanVM s e).1) as (-> & -> & -> & Ht).
  destruct (step_settings cleanVM s e) as (-> & -> & -> & Ht').
  repeat split; auto.
Qed.





Lemma step_error_recorded cleanVM (s : ReaperFSM) (e : Event) :
  error_recorded s → error_recorded (step cleanVM s e).1.
Proof.
  unfold error_recorded. intros Hs.
  by_cases s; cbn [fst snd]; rewrite ?Hst; explicit;
    intros [?|?]; first [congruence | apply Hs; auto].
Qed.

(** X16: the two error states never log an undefined error.  Along any run
    from the constructor's state, whenever the machine is in [listError] or
    [checkError] the field [lastError] holds an error. *)
Theorem error_states_have_error cleanVM (s : ReaperFSM) (es : list Event) :
  error_recorded s →
  error_recorded (run cleanVM s es).1 ∧ error_recorded init.
Proof.
  intros Hs. split.
  - apply run_invariant; [apply step_error_recorded | exact Hs].
  - intros [H|H]; discriminate H.
Qed.

Lemma error_states_have_error_witness :
  error_recorded (run id init [start; timer]).1 ∧ error_recorded init.
Proof.
  apply (error_states_have_error id init). intros [H|H]; discriminate H.
Defined.

Lemma step_walk_cost cleanVM (s : ReaperFSM) (e : Event) :
  retries_ok s →
  (if advances s e then 1 else 0) + walk_cost (step cleanVM s e).1 <=
  walk_cost s + 15 * Z.of_nat (length (scanned s e)).
Proof.
  unfold retries_ok, walk_cost, advances, handled, scanned. intros [Hb Hc].
  by_cases s; unfold attempt_cost; cbn [fst snd walking andb negb];
    rewrite ?Hst; explicit; arith_cases; try congruence;
    try specialize (Hc ltac:(congruence));
    first [lia | cbn [walking andb negb] in *; discriminate].
Qed.

Lemma run_walk_cost cleanVM (es : list Event) (s : ReaperFSM) :
  retries_ok s →
  advancing cleanVM s es + walk_cost (run cleanVM s es).1 <=
  walk_cost s + 15 * Z.of_nat (length (listed cleanVM s es)).
Proof.
  revert s. induction es as [|e es IH]; intros s Hs.
  - simpl. lia.
  - rewrite run_cons_fst. cbn [listed advancing].
    pose proof (step_walk_cost cleanVM s e Hs) as H1.
    pose proof (IH _ (step_retries_ok cleanVM s e Hs)) as H2.
    rewrite length_app. lia.
Qed.

Lemma walk_cost_nonneg (s : ReaperFSM) : retries_ok s → 0 <= walk_cost s.
Proof.
  unfold retries_ok, walk_cost, attempt_cost. intros [Hb Hc].
  destruct (fsm_state s) as [| | | |[]| | | |] eqn:E; try lia;
    specialize (Hc ltac:(congruence)); lia.
Qed.

(** X17: the walk cannot go on forever.  From any state within the retry
    bounds, the events that move the walk on (handled timers and replies in
    the walking states) number at most the cost of the resource in hand,
    16 at most, plus 15 for every id on the worklist or listed during the
    run; from the constructor's state, at most 15 per listed id. *)
Theorem walk_terminates cleanVM (s : ReaperFSM) (es : list Event) :
  retries_ok s →
  advancing cleanVM s es <=
  walk_cost s + 15 * Z.of_nat (length (listed cleanVM s es)) ∧
  walk_cost s <= 16 + 15 * Z.of_nat (length (remaining s)) ∧
  walk_cost init = 0.
Proof.
  intros Hs. split; [|split; [|reflexivity]].
  - pose proof (run_walk_cost cleanVM es s Hs) as H.
    pose proof (walk_cost_nonneg _
                  (run_invariant cleanVM retries_ok (step_retries_ok cleanVM)
                     es s Hs)) as H0.
    lia.
  - destruct Hs as [Hb Hc]. unfold walk_cost, attempt_cost.
    destruct (fsm_state s) as [| | | |[]| | | |]; lia.
Qed.

Lemma walk_terminates_witness :
  advancing id init (twice_listed sample_running true) <=
  walk_cost init +
  15 * Z.of_nat (length (listed id init (twice_listed sample_running true))) ∧
  walk_cost init <= 16 + 15 * Z.of_nat (length (remaining init)) ∧
  walk_cost init = 0.
Proof.
  apply (walk_terminates id init).
  split; [simpl; lia | intros _; simpl; lia].
Defined.


Lemma step_timers cleanVM (s : ReaperFSM) (e : Event) :
  settled s → Forall timer_in_range (step cleanVM s e).2.
Proof.
  intros [(Hmin & Hmax & v & Hv & Hs) Hr].
  assert (0 < sleep s ∧ sleep s < 86400000)%Q as Hsleep.
  { unfold sleep_values in Hv. cbn [In] in Hv.
    repeat (destruct Hv as [<-|Hv]; [rewrite Hs; split; reflexivity|]).
    destruct Hv. }
  by_cases s; next_sleeps; explicit_actions;
    repeat match goal with
           | |- Forall _ (_ :: _) => constructor
           | |- Forall _ [] => constructor
           end;
    cbn [timer_in_range]; fields;
    first [ exact I | split; reflexivity | exact Hsleep | lra ].
Qed.

Lemma call_settled cleanVM (s : ReaperFSM) (c : Call) :
  settled s → settled (call cleanVM s c).1.
Proof.
  intros Hs. destruct c as [e|v]; cbn [call].
  - destruct Hs as [Hl Hr]. split; [apply step_sleep_listed, Hl|].
    by rewrite (proj1 (step_settings cleanVM s e)).
  - unfold setReapTime. destruct v as [| | |q| | | |]; try exact Hs.
    destruct (Qltb 0 q && Qltb q (24 * 3600)) eqn:H; [|exact Hs].
    apply andb_true_iff in H as [H1 H2]. apply Qltb_lt in H1, H2.
    destruct Hs as [Hl _]. split; [exact Hl|].
    cbn [fst reapTime set_reapTime]. split; [exact H1|].
    eapply Qlt_le_trans; [exact H2|]. compute. discriminate.
Qed.

(** X19: every timer has a sane duration.  In the life of a stream, from
    the constructor's state and through any events and any calls of
    [setReapTime], accepted or not, every timer the machine arms lasts more
    than 0 ms and less than a day, the throttle stays among its listed
    values, and [reapTime] stays strictly between 0 and 86400. *)
Theorem timers_in_range cleanVM (cs : list Call) :
  Forall timer_in_range (session cleanVM init cs).2 ∧
  settled (session cleanVM init cs).1.
Proof.
  assert (settled init) as Hinit.
  { split; [|split; reflexivity].
    split; [reflexivity|]. split; [reflexivity|].
    exists 100%Q. split; [left; reflexivity | reflexivity]. }
  revert Hinit. generalize init as s.
  induction cs as [|c cs IH]; intros s Hs; [split; [constructor|exact Hs]|].
  cbn [session]. rewrite andThen_fst, andThen_snd.
  destruct (IH _ (call_settled cleanVM s c Hs)) as [Ha Hs'].
  split; [|exact Hs']. apply Forall_app. split; [|exact Ha].
  destruct c as [e|v]; cbn [call]; [apply step_timers, Hs|].
  destruct (setReapTime v s); constructor.
Qed.




Lemma exec_field (st : Store) (a : Action) (key field : string) :
  well_formed_action a →
  hget (exec st a) key field = hget st key field ∨
  hget (exec st a) key field = None ∨
  (field = "reaped" ∧ hget (exec st a) key field = Some "yes").
Proof.
  unfold hget. destruct a as [| |k f|k|k f v| |]; cbn [exec well_formed_action];
    auto.
  - intros _. unfold del. destruct (decide (k = key)) as [->|Hne].
    + rewrite lookup_delete_eq. auto.
    + rewrite lookup_delete_ne by exact Hne. auto.
  - intros [-> ->]. unfold hset. destruct (decide (k = key)) as [->|Hne].
    + rewrite lookup_insert_eq. cbn [mbind option_bind].
      destruct (decide (field = "reaped")) as [->|Hf].
      * rewrite lookup_insert_eq. auto.
      * rewrite lookup_insert_ne by congruence. left.
        destruct (st !! key); [reflexivity|]. apply lookup_empty.
    + rewrite lookup_insert_ne by exact Hne. auto.
Qed.

Lemma exec_all_field (acts : list Action) (st : Store) (key field : string) :
  Forall well_formed_action acts →
  hget (exec_all st acts) key field = hget st key field ∨
  hget (exec_all st acts) key field = None ∨
  (field = "reaped" ∧ hget (exec_all st acts) key field = Some "yes").
Proof.
  induction acts as [|a acts IH] using rev_ind; intros Hall; [auto|].
  apply Forall_app in Hall as [Hacts Ha]. inversion Ha as [|? ? Hwf _]; subst.
  unfold exec_all in *. rewrite foldl_app. cbn [foldl].
  destruct (exec_field (foldl exec st acts) a key field Hwf) as [->|H];
    [exact (IH Hacts) | auto].
Qed.

(** X21: the reaper never rewrites a record.  Whatever events arrive, after
    the commands of a run are applied every field of every record has the
    value it had before or no value at all (the record was deleted), except
    that [reaped] may have become [yes]; so [last_visit] and [last_recs]
    are never altered. *)
Theorem fields_never_rewritten cleanVM (s : ReaperFSM) (es : list Event)
    (st : Store) (key field : string) :
  let st' := exec_all st (run cleanVM s es).2 in
  hget st' key field = hget st key field ∨
  hget st' key field = None ∨
  (field = "reaped" ∧ hget st' key field = Some "yes").
Proof.
  apply exec_all_field.
  induction es as [|e es IH] in s |- *; [constructor|].
  rewrite run_cons_snd. apply Forall_app.
  split; [apply step_well_formed | apply IH].
Qed.

Lemma exec_all_other (acts : list Action) (st : Store) (key : string) :
  Forall (fun a => addressed a = true → ∃ u, key ≠ vmkey_of u ∧ about u a)
         acts →
  exec_all st acts !! key = st !! key.
Proof.
  induction acts as [|a acts IH] using rev_ind; intros Hall; [reflexivity|].
  apply Forall_app in Hall as [Hacts Ha]. inversion Ha as [|? ? Hab _]; subst.
  unfold exec_all in *. rewrite foldl_app. cbn [foldl].
  rewrite <- (IH Hacts).
  destruct a as [| |k f|k|k f v| |]; cbn [exec]; try reflexivity;
    destruct (Hab eq_refl) as (u & Hne & Hk); cbn [about] in Hk; subst k.
  - unfold del. by rewrite lookup_delete_ne.
  - unfold hset. by rewrite lookup_insert_ne.
Qed.

(** X22: records that no scan listed are left alone.  In a run that starts
    outside the walk with an empty worklist, a key that is not [vm:<id>]
    for an id listed during the run has the same record after the commands
    of the run as before. *)
Theorem unlisted_records_untouched cleanVM (s : ReaperFSM)
    (es : list Event) (st : Store) (key : string) :
  walking (fsm_state s) = false → remaining s = [] →
  (∀ u, In u (listed cleanVM s es) → key ≠ vmkey_of u) →
  exec_all st (run cleanVM s es).2 !! key = st !! key.
Proof.
  intros Hw Hr Hkey. apply exec_all_other.
  assert (holds [] s) as Hs.
  { split; [rewrite Hr; intros ? []|]. rewrite Hw. discriminate. }
  eapply Forall_impl; [exact (run_holds cleanVM es [] s Hs)|].
  cbn beta. intros a Ha Hadd. destruct (Ha Hadd) as (u & Hin & Hab).
  exists u. split; [apply Hkey, Hin | exact Hab].
Qed.

Lemma unlisted_records_untouched_witness :
  exec_all sample_store_stale
    (run id init (twice_listed sample_destroyed true)).2 !! "vm:B" =
  sample_store_stale !! "vm:B".
Proof.
  apply (unlisted_records_untouched id init); [reflexivity | reflexivity |].
  intros u Hin. vm_compute in Hin.
  destruct Hin as [<-|[<-|[]]]; discriminate.
Defined.
Lemma last_cons_default {A} (l : list A) (c d : A) :
  List.last l c = List.last (c :: l) d.
Proof.
  revert c d. induction l as [|a l IH]; intros c d; [reflexivity|].
  change (List.last (c :: a :: l) d) with (List.last (a :: l) d).
  by rewrite <- !(IH a).
Qed.

(** X23: a scan follows the cursors Redis hands out.  While pages with a
    cursor other than 0 arrive, the machine answers each with a new scan
    from exactly that cursor under a fresh ten-second timer, stays in
    [listVms], and issues nothing else. *)
Theorem scan_follows_cursors cleanVM (pages : list (string * list string))
    (s : ReaperFSM) :
  fsm_state s = St.listVms → Forall (fun p => p.1 ≠ "0") pages →
  (run cleanVM s (map page_reply pages)).2 = page_scans pages ∧
  listCursor (run cleanVM s (map page_reply pages)).1 =
    List.last (map fst pages) (listCursor s).
Proof.
  revert s. induction pages as [|[c keys] pages IH]; intros s Hst Hp;
    [done|].
  inversion Hp as [|? ? Hc Hp']; subst. cbn [fst] in Hc. cbn [map].
  rewrite run_cons_fst, run_cons_snd. unfold page_reply at 1 2 4.
  rewrite (step_page _ _ _ _ Hst Hc).
  destruct (IH (state_listVms (set_remaining (remaining s ++ candidates keys)
                                 (set_listCursor c s))).1 eq_refl Hp')
    as [-> ->].
  split; [reflexivity|]. cbn [fst state_listVms listCursor set_state
    set_remaining set_listCursor].
  apply last_cons_default.
Qed.

Lemma scan_follows_cursors_witness :
  let s := (step id init start).1 in
  (run id s (map page_reply [("17", ["vm:A"]); ("4", [])])).2 =
    page_scans [("17", ["vm:A"]); ("4", [])] ∧
  listCursor (run id s (map page_reply [("17", ["vm:A"]); ("4", [])])).1 =
    List.last (map fst [("17", ["vm:A"]); ("4", [])]) (listCursor s).
Proof.
  intros s. apply (scan_follows_cursors id); [reflexivity|].
  repeat constructor; discriminate.
Defined.






Lemma step_spaced cleanVM (s : ReaperFSM) (e : Event) :
  count is_push (step cleanVM s e).2 + pausing (step cleanVM s e).1 <=
  (if is_pause_end e then 1 else 0) + pausing s.
Proof.
  unfold count.
  by_cases s; unfold pausing; cbn [fst snd is_pause_end]; rewrite ?Hst;
    explicit; arith_cases; try congruence;
    first [lia | cbn [is_pause_end] in *; discriminate].
Qed.

(** X25: pushes are spaced by the throttle.  After a push the machine
    sleeps, and only the sleep timer or a wake-up lets it go on; so in any
    run the number of pushes is at most one more than the number of timer
    and wake-up events of the run. *)
Theorem pushes_are_spaced cleanVM (s : ReaperFSM) (es : list Event) :
  count is_push (run cleanVM s es).2 <= pause_ends es + 1.
Proof.
  enough (count is_push (run cleanVM s es).2 + pausing (run cleanVM s es).1
          <= pause_ends es + pausing s) as H.
  { assert (0 <= pausing (run cleanVM s es).1 ∧ pausing s <= 1)
      by (unfold pausing; split; repeat case_match; lia). lia. }
  revert s. induction es as [|e es IH]; intros s.
  - simpl. unfold count, pause_ends. simpl. lia.
  - rewrite run_cons_fst, run_cons_snd.
    pose proof (step_spaced cleanVM s e) as H1.
    pose proof (IH (step cleanVM s e).1) as H2.
    unfold count, pause_ends in *. rewrite List.filter_app, length_app.
    cbn [List.filter]. destruct (is_pause_end e); cbn [length]; lia.
Qed.

(** X26: every transition arms one timer.  Once the machine has been
    started, a handled event arms exactly one timer, so that no state
    waits on Redis or VMAPI without a watchdog; the exceptions are the two
    events that stay under the handle of the current state and its timer,
    and an event without a live handler arms none. *)
Theorem one_timer_per_transition cleanVM (s : ReaperFSM) (e : Event) :
  started s →
  count is_timeout (step cleanVM s e).2 =
  if handled s e && negb (stays s e) then 1 else 0.
Proof.
  unfold started, count, handled, stays. intros Hs.
  by_cases s; cbn [fst snd andb negb]; rewrite ?Hst; explicit;
    try specialize (Hs ltac:(congruence));
    cbn [List.filter is_timeout length app]; try reflexivity; try congruence;
    try (cbn [andb negb] in *; congruence).
Qed.

Lemma one_timer_per_transition_witness :
  count is_timeout (step id init start).2 =
  if handled init start && negb (stays init start) then 1 else 0.
Proof.
  apply (one_timer_per_transition id init start). intros H. by destruct H.
Defined.
